(** * llm-coq.py: the generate / extract / compile / retry loop

    A shallow embedding of [src/llm-coq.py] and the properties of its
    prompt builder, code extractor, error parser, checker adapter and
    driving loop.

    Conventions of the embedding.
    - A Python [str] is a [string]; a character is an [ascii] standing for
      the code point of the same number, so the texts covered are those
      whose code points are below 256.  The character classes below are
      Python's, restricted to that range.
    - A [dict] with string keys is a [gmap string _]; indexing a missing
      key raises [KeyError].
    - The two collaborators (the model backend and the [coqc] subprocess)
      are functions of a [World]; each call is numbered, so that a world
      may answer every call differently.  They always answer: a backend
      that cannot be reached, a missing [coqc] binary and failing file
      operations are outside the model.
    - Effects (files, standard output, exceptions) are threaded through a
      state-and-exception monad.
    - Files are opened in text mode on a system whose line separator is
      the newline: writing stores the text as it is, reading turns every
      CR LF and every lone CR into a newline.
    - A path stands for the file it names: the file system is keyed by
      paths as they are written, and two spellings of one file (a leading
      [./], a link) are outside the model.  Nothing below is concluded from
      two paths being different. *)

From Stdlib Require Import Ascii String List Arith Lia Bool.
From stdpp Require Import base strings gmap.

Local Open Scope string_scope.
Local Open Scope list_scope.
Local Open Scope nat_scope.

(** ** Characters and strings *)

Module Str.

Definition nl : ascii := "010"%char.   (* the newline *)
Definition dq : ascii := "034"%char.   (* the double quote *)
Definition cr : ascii := "013"%char.   (* the carriage return *)

Definition code (c : ascii) : nat := nat_of_ascii c.

Definition in_range (lo hi : nat) (c : ascii) : bool :=
  (lo <=? code c) && (code c <=? hi).

(** [str.isspace] on one character, which is also the class [\s] of
    [re] for a [str] pattern: TAB..CR, FS..US, space, NEL, NBSP. *)
Definition isspace (c : ascii) : bool :=
  in_range 9 13 c || in_range 28 32 c || (code c =? 133) || (code c =? 160).

(** The class [\d] of [re] for a [str] pattern: decimal digits. *)
Definition isdecimal (c : ascii) : bool := in_range 48 57 c.

(** The class [[a-zA-Z]]. *)
Definition isletter (c : ascii) : bool := in_range 97 122 c || in_range 65 90 c.

(** The class [.]: without [re.DOTALL] every character but the newline,
    with it every character. *)
Definition dot (c : ascii) : bool := negb (Ascii.eqb c nl).
Definition dot_all (_ : ascii) : bool := true.

(** A negated one-character set, as in the class of every character
    but the double quote. *)
Definition other_than (x : ascii) (c : ascii) : bool := negb (Ascii.eqb c x).

Fixpoint all (p : ascii -> bool) (s : string) : bool :=
  match s with
  | EmptyString => true
  | String c s' => p c && all p s'
  end.

Fixpoint drop (n : nat) (s : string) : string :=
  match n, s with
  | S n', String _ s' => drop n' s'
  | _, _ => s
  end.

(** The slice [s[a:b]] for [a <= b]. *)
Definition slice (a b : nat) (s : string) : string := substring a (b - a) s.

Fixpoint lstrip (s : string) : string :=
  match s with
  | String c s' => if isspace c then lstrip s' else s
  | EmptyString => EmptyString
  end.

Fixpoint rstrip (s : string) : string :=
  match s with
  | String c s' =>
      match rstrip s' with
      | EmptyString => if isspace c then EmptyString else String c EmptyString
      | r => String c r
      end
  | EmptyString => EmptyString
  end.

(** [str.strip()] with no argument. *)
Definition strip (s : string) : string := rstrip (lstrip s).

(** Truth value of a [str] in a condition: non-empty. *)
Definition nonempty (s : string) : bool :=
  match s with EmptyString => false | String _ _ => true end.

(** [needle in s]. *)
Fixpoint occurs (needle s : string) : bool :=
  String.prefix needle s ||
  match s with
  | String _ s' => occurs needle s'
  | EmptyString => false
  end.

(** What reading a file in text mode makes of its content: CR LF and a
    lone CR become a newline. *)
Fixpoint universal_newlines (s : string) : string :=
  match s with
  | String c s' =>
      if Ascii.eqb c cr then
        match s' with
        | String c' s'' =>
            if Ascii.eqb c' nl then String nl (universal_newlines s'')
            else String nl (universal_newlines s')
        | EmptyString => String nl EmptyString
        end
      else String c (universal_newlines s')
  | EmptyString => EmptyString
  end.

(** The part of [s] before its first newline (all of [s] without one). *)
Fixpoint first_line (s : string) : string :=
  match s with
  | String c s' => if Ascii.eqb c nl then EmptyString else String c (first_line s')
  | EmptyString => EmptyString
  end.

End Str.

(** ** The fragment of [re] the program uses

    A pattern is a sequence of items.  Repetition is only ever applied to
    a one-character class in the source, so the items are: a literal
    character, one character of a class, a greedy or lazy star of a
    class, the anchor [$] under [re.MULTILINE], and the marks that open
    and close a group (mark [2g-2] opens group [g], mark [2g-1] closes
    it, as in the compiled form of a pattern). *)

Module Re.

Inductive item :=
| Lit (c : ascii)
| One (cls : ascii -> bool)
| Star (cls : ascii -> bool)
| StarLazy (cls : ascii -> bool)
| EolM
| Mark (n : nat).

Definition pattern := list item.

Fixpoint lit (s : string) : pattern :=
  match s with
  | EmptyString => []
  | String c s' => Lit c :: lit s'
  end.

(** [cls+], greedy. *)
Definition plus (cls : ascii -> bool) : pattern := [One cls; Star cls].

(** [$] under [re.MULTILINE]: at the end of the text or before a newline. *)
Definition at_eol (s : string) : bool :=
  match s with
  | EmptyString => true
  | String c _ => Ascii.eqb c Str.nl
  end.

(** The backtracking matcher.  [exec p adv i0 i mk s] matches [p]
    against [s], the text that starts at offset [i]; [mk] holds the marks
    set so far.  It returns the end offset and the marks of the first
    match in backtracking order.  With [adv] set, a match that ends at
    offset [i0] is refused (the matcher's must-advance rule, used after
    an empty match of [re.sub]). *)
Fixpoint exec (p : pattern) (adv : bool) (i0 i : nat) (mk : gmap nat nat)
    (s : string) {struct p} : option (nat * gmap nat nat) :=
  match p with
  | [] => if adv && (i =? i0) then None else Some (i, mk)
  | Lit c :: p' =>
      match s with
      | String a s' => if Ascii.eqb a c then exec p' adv i0 (S i) mk s' else None
      | EmptyString => None
      end
  | One cls :: p' =>
      match s with
      | String a s' => if cls a then exec p' adv i0 (S i) mk s' else None
      | EmptyString => None
      end
  | Star cls :: p' =>
      (fix star (i : nat) (s : string) {struct s} :=
         match s with
         | String a s' =>
             if cls a then
               match star (S i) s' with
               | Some r => Some r
               | None => exec p' adv i0 i mk s
               end
             else exec p' adv i0 i mk s
         | EmptyString => exec p' adv i0 i mk s
         end) i s
  | StarLazy cls :: p' =>
      (fix lazy (i : nat) (s : string) {struct s} :=
         match exec p' adv i0 i mk s with
         | Some r => Some r
         | None =>
             match s with
             | String a s' => if cls a then lazy (S i) s' else None
             | EmptyString => None
             end
         end) i s
  | EolM :: p' => if at_eol s then exec p' adv i0 i mk s else None
  | Mark n :: p' => exec p' adv i0 i (<[n := i]> mk) s
  end.

(** A match object: the text, the span of the match, the marks. *)
Record Match := {
  m_string : string;
  m_start : nat;
  m_end : nat;
  m_marks : gmap nat nat
}.

(** [Pattern.search]: the first start offset, from the left, at which
    the pattern matches. *)
Fixpoint search_from (p : pattern) (text : string) (i : nat) (s : string)
    : option Match :=
  match exec p false i i ∅ s with
  | Some (e, mk) =>
      Some {| m_string := text; m_start := i; m_end := e; m_marks := mk |}
  | None =>
      match s with
      | String _ s' => search_from p text (S i) s'
      | EmptyString => None
      end
  end.

Definition search (p : pattern) (text : string) : option Match :=
  search_from p text 0 text.

(** [Match.group(g)] for [g >= 1]; [None] when the group took no part
    in the match. *)
Definition group (m : Match) (g : nat) : option string :=
  match m_marks m !! (2 * g - 2), m_marks m !! (2 * g - 1) with
  | Some a, Some b => Some (Str.slice a b (m_string m))
  | _, _ => None
  end.

(** [Match.groupdict()] for the named groups [names] (name, number).  A
    group that took no part in the match has no entry; the named groups
    of the one pattern that uses [groupdict] take part in every match
    ([parse_coq_error_keys]). *)
Fixpoint groupdict (names : list (string * nat)) (m : Match)
    : gmap string string :=
  match names with
  | [] => ∅
  | (name, g) :: rest =>
      match group m g with
      | Some v => <[name := v]> (groupdict rest m)
      | None => groupdict rest m
      end
  end.

(** [re.sub(p, repl, s)] for a replacement without group references.
    Each turn tries the pattern at the current offset; a match is
    replaced and the scan resumes at its end (after an empty match the
    next match at that offset must advance); otherwise one character is
    copied.  No turn is empty twice in a row, so [2 * length s + 2]
    turns cover the text ([sub_loop_enough]). *)
Fixpoint sub_loop (fuel : nat) (p : pattern) (repl : string) (adv : bool)
    (s : string) : string :=
  match fuel with
  | 0 => s
  | S fuel' =>
      match exec p adv 0 0 ∅ s with
      | Some (e, _) => repl +:+ sub_loop fuel' p repl (e =? 0) (Str.drop e s)
      | None =>
          match s with
          | String a s' => String a (sub_loop fuel' p repl false s')
          | EmptyString => EmptyString
          end
      end
  end.

Definition sub (p : pattern) (repl : string) (s : string) : string :=
  sub_loop (2 * String.length s + 2) p repl false s.

(** [rest] does not start with a character of [cls]. *)
Definition boundary (cls : ascii -> bool) (rest : string) : bool :=
  match rest with
  | EmptyString => true
  | String c _ => negb (cls c)
  end.

(** What a successful run of the matcher has read: [matches p i mk m
    rest mk'] says that [p] matches [m], followed in the text by [rest],
    from offset [i] and marks [mk], leaving marks [mk']. *)
Fixpoint matches (p : pattern) (i : nat) (mk : gmap nat nat)
    (m rest : string) (mk' : gmap nat nat) : Prop :=
  match p with
  | [] => m = "" /\ mk' = mk
  | Lit c :: p' => exists m', m = String c m' /\ matches p' (S i) mk m' rest mk'
  | One cls :: p' =>
      exists c m', m = String c m' /\ cls c = true /\ matches p' (S i) mk m' rest mk'
  | Star cls :: p' | StarLazy cls :: p' =>
      exists a m', m = a +:+ m' /\ Str.all cls a = true /\
                   matches p' (i + String.length a) mk m' rest mk'
  | EolM :: p' => at_eol (m +:+ rest) = true /\ matches p' i mk m rest mk'
  | Mark n :: p' => matches p' i (<[n := i]> mk) m rest mk'
  end.

End Re.

(** ** State, exceptions and the collaborators *)

Inductive exn :=
| KeyError (key : string).

(** What [print] sends to standard output: the string arguments of one
    call, or a label followed by a dictionary. *)
Inductive event :=
| Print (args : list string)
| PrintDict (label : string) (d : gmap string string).

Record State := {
  files : gmap string string;   (* the file system: path, content *)
  stdout : list event;          (* what was printed, oldest first *)
  chats : nat;                  (* requests sent to the model so far *)
  coqcs : nat;                  (* runs of the checker so far *)
  attempts : nat                (* ghost: rounds started by [main] *)
}.

Definition set_files (f : gmap string string -> gmap string string) (st : State) : State :=
  {| files := f (files st); stdout := stdout st; chats := chats st;
     coqcs := coqcs st; attempts := attempts st |}.

Definition add_stdout (e : event) (st : State) : State :=
  {| files := files st; stdout := stdout st ++ [e]; chats := chats st;
     coqcs := coqcs st; attempts := attempts st |}.

Definition incr_chats (st : State) : State :=
  {| files := files st; stdout := stdout st; chats := S (chats st);
     coqcs := coqcs st; attempts := attempts st |}.

Definition incr_coqcs (st : State) : State :=
  {| files := files st; stdout := stdout st; chats := chats st;
     coqcs := S (coqcs st); attempts := attempts st |}.

Definition incr_attempts (st : State) : State :=
  {| files := files st; stdout := stdout st; chats := chats st;
     coqcs := coqcs st; attempts := S (attempts st) |}.

(** How a run of the checker ends: exit status zero, or non-zero with
    the text of its standard error (what [e.stderr.decode()] gives). *)
Inductive exit :=
| ExitZero
| ExitNonZero (stderr : string).

Record World := {
  (** [ollama.chat]: request number, model, prompt; the content of the
      response message. *)
  ollama_chat : nat -> string -> string -> string;
  (** [coqc path]: run number, path, the files before; how the run ends
      and the files after (the checker writes its own outputs). *)
  coqc : nat -> string -> gmap string string -> exit * gmap string string
}.

Inductive Res (A : Type) :=
| Ok (a : A) (st : State)
| Raise (e : exn) (st : State).
Arguments Ok {A} a st.
Arguments Raise {A} e st.

Definition M (A : Type) : Type := State -> Res A.

Definition ret {A} (a : A) : M A := fun st => Ok a st.

Definition bind {A B} (c : M A) (k : A -> M B) : M B :=
  fun st => match c st with
            | Ok a st' => k a st'
            | Raise e st' => Raise e st'
            end.

Definition raise {A} (e : exn) : M A := fun st => Raise e st.

Definition print (e : event) : M unit := fun st => Ok tt (add_stdout e st).

(** Ghost step: one more round started. *)
Definition count_attempt : M unit := fun st => Ok tt (incr_attempts st).

Notation "'do' x <- c ; k" := (bind c (fun x => k))
  (at level 10, x name, c at level 100, k at level 200).
Notation "'do' ' pat <- c ; k" := (bind c (fun x => match x with pat => k end))
  (at level 10, pat pattern, c at level 100, k at level 200).
Notation "c ;; k" := (bind c (fun _ => k))
  (at level 100, k at level 200, right associativity).

(** [d[key]] *)
Definition getitem (d : gmap string string) (key : string) : M string :=
  match d !! key with
  | Some v => ret v
  | None => raise (KeyError key)
  end.

(** ** The program *)

Definition MAX_NUM_ATTEMPTS : nat := 2.

Record CoqInterface := {
  task_prompt : string;
  metaprompt : string;
  model : string;
  filename : string;
  error_log : string
}.

Definition default_model : string := "codellama:7b".

(** [CoqInterface.__init__] *)
Definition init (task_prompt metaprompt filename model : string) : CoqInterface :=
  {| task_prompt := task_prompt; metaprompt := metaprompt; model := model;
     filename := filename; error_log := "coq_error.log" |}.

Definition NL : string := String Str.nl EmptyString.
Definition DQ : string := String Str.dq EmptyString.

Definition fence : Re.pattern := Re.lit "```".

(** The pattern of [parse_coq_error]; groups [line], [characters] and
    [message] are groups 1, 2 and 3. *)
Definition error_pattern : Re.pattern :=
  Re.lit "File " ++ [Re.Lit Str.dq; Re.Star (Str.other_than Str.dq); Re.Lit Str.dq] ++
  Re.lit ", line " ++ [Re.Mark 0] ++ Re.plus Str.isdecimal ++ [Re.Mark 1] ++
  Re.lit ", characters " ++
  [Re.Mark 2] ++ Re.plus Str.isdecimal ++ [Re.Lit "-"%char] ++ Re.plus Str.isdecimal ++
  [Re.Mark 3] ++
  [Re.Lit ":"%char; Re.Lit Str.nl] ++ Re.lit "Error: " ++
  [Re.Mark 4; Re.Star Str.dot; Re.Mark 5].

Definition error_groups : list (string * nat) :=
  [("line", 1); ("characters", 2); ("message", 3)].

Definition parse_coq_error (error_message : string) : gmap string string :=
  match Re.search error_pattern error_message with
  | Some m => Re.groupdict error_groups m
  | None => ∅
  end.

(** [errors] is [None] or a [str]; the first test is [type(errors) is str]. *)
Definition construct_error_message (errors : option string) : M string :=
  match errors with
  | Some e =>
      let errordict := parse_coq_error e in
      print (PrintDict "errordict:" errordict) ;;
      do line <- getitem errordict "line" ;
      do characters <- getitem errordict "characters" ;
      do message <- getitem errordict "message" ;
      ret ("We had an error on line " +:+ line +:+ " at characters " +:+ characters
           +:+ ". The error type was " +:+ DQ +:+ message +:+ DQ)
  | None =>
      print (Print ["errors were not string, returning empty"]) ;;
      ret ""
  end.

(** The truth value of [errors] in [if errors:]. *)
Definition truthy (errors : option string) : bool :=
  match errors with
  | Some e => Str.nonempty e
  | None => false
  end.

Definition construct_ollama_prompt (self : CoqInterface) (first : bool)
    (errors : option string) : M string :=
  if first then
    if truthy errors then
      do msg <- construct_error_message errors ;
      ret (metaprompt self +:+ NL +:+ task_prompt self +:+ NL +:+ msg +:+ NL)
    else ret (metaprompt self +:+ NL +:+ task_prompt self +:+ NL)
  else
    if truthy errors then
      do msg <- construct_error_message errors ;
      ret ("Reminder that our task is to: " +:+ task_prompt self +:+ NL +:+ msg +:+ NL)
    else ret (task_prompt self +:+ NL).

(** The pattern of [extract_code_segment], compiled with [re.DOTALL]. *)
Definition code_pattern : Re.pattern :=
  fence ++ [Re.Mark 0; Re.StarLazy Str.dot_all; Re.Mark 1] ++ fence.

(** The patterns of the two [re.sub] calls, the second compiled with
    [re.MULTILINE]. *)
Definition tag_line_pattern : Re.pattern :=
  fence ++ [Re.Star Str.isletter; Re.Lit Str.nl].
Definition closing_fence_pattern : Re.pattern :=
  fence ++ [Re.Star Str.isspace; Re.EolM].

(** Group 1 takes part in every match of [code_pattern]
    ([code_pattern_group]), so the last branch is never taken. *)
Definition extract_code_segment (text : string) : string :=
  match Re.search code_pattern text with
  | Some m =>
      match Re.group m 1 with
      | Some g =>
          let matchtext := Str.strip g in
          let cleaned_text := Re.sub tag_line_pattern "" matchtext in
          let cleaned_text := Re.sub closing_fence_pattern "" cleaned_text in
          Str.strip cleaned_text
      | None => ""
      end
  | None => ""
  end.

Section Program.

Variable W : World.
Variable self : CoqInterface.

Definition chat (prompt : string) : M string :=
  fun st => Ok (ollama_chat W (chats st) (model self) prompt) (incr_chats st).

Definition generate_coq_code (first : bool) (errors : option string) : M string :=
  do prompt <- construct_ollama_prompt self first errors ;
  print (Print ["Prompt:" +:+ NL +:+ "==============" +:+ NL; prompt]) ;;
  chat prompt.

Definition write_file (path content : string) : M unit :=
  fun st => Ok tt (set_files (insert path content) st).

Definition write_to_file (code : string) : M unit :=
  write_file (filename self) code.

(** [subprocess.run] of [coqc] on the target file, with [check=True]. *)
Definition subprocess_run : M exit :=
  fun st =>
    let '(status, files') := coqc W (coqcs st) (filename self) (files st) in
    Ok status (set_files (fun _ => files') (incr_coqcs st)).

Definition run_coqc : M (bool * string) :=
  do status <- subprocess_run ;
  match status with
  | ExitZero => ret (true, "Coq code compiled successfully.")
  | ExitNonZero stderr =>
      write_file (error_log self) stderr ;;
      ret (false, stderr)
  end.

(** The log is read in text mode. *)
Definition parse_errors : M string :=
  fun st =>
    match files st !! error_log self with
    | None => Ok "No errors found." st
    | Some errors => Ok (Str.universal_newlines errors) st
    end.

Definition compile_and_check (first : bool) (errors : option string)
    : M (bool * option string) :=
  do coq_code <- generate_coq_code first errors ;
  let clean_coq_code := extract_code_segment coq_code in
  if String.eqb clean_coq_code "" then
    print (Print ["No code segment found in response. Please try again."]) ;;
    ret (false, Some "No code segment found in response.")
  else
    write_to_file clean_coq_code ;;
    do '(success, message) <- run_coqc ;
    if negb success then
      do errors <- parse_errors ;
      print (Print ["=============" +:+ NL +:+ "Compilation errors:" +:+ NL; errors]) ;;
      ret (false, Some errors)
    else
      print (Print [message]) ;;
      ret (true, None).

(** The loop of [main] over [range(n)] from round [i] on; [status] and
    [errors] are the variables of [main]. *)
Fixpoint main_loop (n i : nat) (status : bool) (errors : option string)
    : M (bool * option string) :=
  match n with
  | 0 => ret (status, errors)
  | S n' =>
      count_attempt ;;
      do '(status, errors) <- compile_and_check (i =? 0) errors ;
      if status then ret (status, errors)
      else
        print (Print ["Errors found. Trying again." +:+ NL +:+ "============="]) ;;
        main_loop n' (S i) status errors
  end.

End Program.

Definition main_metaprompt : string :=
  NL +:+ "We're going to play a game. I'll give you a prompt, and you have to write a Coq proof that satisfies the prompt. In your answers, write only one Coq code snippet delineated by triple backticks ```. I'll check your proof and let you know if it's correct. If you need help, just ask!" +:+ NL.

(** [main] after argument parsing: [prompt], [--model], [--filename]. *)
Definition main (W : World) (prompt model filename : string) : M (bool * option string) :=
  let coq_handler := init prompt main_metaprompt filename model in
  main_loop W coq_handler MAX_NUM_ATTEMPTS 0 false None.

Definition initial (fs : gmap string string) : State :=
  {| files := fs; stdout := []; chats := 0; coqcs := 0; attempts := 0 |}.

(** ** Texts the properties speak of *)

(** A non-empty run of decimal digits. *)
Definition is_number (s : string) : bool := Str.nonempty s && Str.all Str.isdecimal s.

(** A diagnostic of the checker: the file reference, the position, and
    the message on the next line. *)
Definition diagnostic (name line first last message : string) : string :=
  "File " +:+ DQ +:+ name +:+ DQ +:+ ", line " +:+ line +:+
  ", characters " +:+ first +:+ "-" +:+ last +:+ ":" +:+ NL +:+
  "Error: " +:+ message.

(** ** Runs the properties speak of *)

(** What an attempt without a code segment returns as its message. *)
Definition no_code_message : string := "No code segment found in response.".

Definition no_code_notice : event :=
  Print ["No code segment found in response. Please try again."].

(** What [main] prints between a failed round and the next. *)
Definition trying_again : event :=
  Print ["Errors found. Trying again." +:+ NL +:+ "============="].

(** [st'] differs from [st] by what was printed and by the requests sent
    to the model only: same files, same runs of the checker. *)
Definition unchanged_outside (st st' : State) : Prop :=
  files st' = files st /\ coqcs st' = coqcs st /\ attempts st' = attempts st.

(** [k] rounds of the loop of [main], from round [i] on, that all fail:
    the prior error and the state handed to round [i + k], if they do. *)
Fixpoint failing_rounds (W : World) (self : CoqInterface) (k i : nat)
    (errors : option string) (st : State) : option (option string * State) :=
  match k with
  | 0 => Some (errors, st)
  | S k' =>
      match compile_and_check W self (i =? 0) errors (incr_attempts st) with
      | Ok (false, errors') st' =>
          failing_rounds W self k' (S i) errors' (add_stdout trying_again st')
      | _ => None
      end
  end.

(** The state a run leaves behind, however it ends. *)
Definition final_state {A} (r : Res A) : State :=
  match r with
  | Ok _ st => st
  | Raise _ st => st
  end.

(** A model answer with a language tag on the opening fence. *)
Definition tagged_answer : string :=
  "```coq" +:+ NL +:+ "Lemma t: 1=1. Proof. reflexivity. Qed." +:+ NL +:+ "```".

Definition syntax_error : string := diagnostic "x.v" "12" "4" "10" "Syntax error.".

(** A world whose model never answers with code. *)
Definition mute_world : World :=
  {| ollama_chat := fun _ _ _ => "I cannot write this proof.";
     coqc := fun _ _ fs => (ExitZero, fs) |}.

(** A world whose checker accepts whatever it is run on. *)
Definition accepting_world : World :=
  {| ollama_chat := fun _ _ _ => tagged_answer;
     coqc := fun _ _ fs => (ExitZero, fs) |}.

(** A world whose checker rejects its first run and accepts the next. *)
Definition retry_world : World :=
  {| ollama_chat := fun _ _ _ => tagged_answer;
     coqc := fun n _ fs =>
       (if n =? 0 then ExitNonZero syntax_error else ExitZero, fs) |}.

(** The sentence [construct_error_message] builds of the three fields. *)
Definition error_sentence (line characters message : string) : string :=
  "We had an error on line " +:+ line +:+ " at characters " +:+ characters
  +:+ ". The error type was " +:+ DQ +:+ message +:+ DQ.

(** The mapping the parser returns for a diagnostic. *)
Definition parsed (line characters message : string) : gmap string string :=
  {[ "line" := line; "characters" := characters; "message" := message ]}.

(** The head of a prompt: the preamble and the task on a first attempt,
    the reminder of the task afterwards. *)
Definition prompt_head (self : CoqInterface) (first : bool) : string :=
  if first then metaprompt self +:+ NL +:+ task_prompt self
  else "Reminder that our task is to: " +:+ task_prompt self.

(** A world whose checker rejects every run with a text that is no
    diagnostic. *)
Definition rejecting_world : World :=
  {| ollama_chat := fun _ _ _ => tagged_answer;
     coqc := fun _ _ fs => (ExitNonZero "coqc: internal error", fs) |}.

(** A diagnostic whose lines end in CR LF. *)
Definition syntax_error_crlf : string :=
  "File " +:+ DQ +:+ "x.v" +:+ DQ +:+ ", line 12, characters 4-10:"
  +:+ String Str.cr NL +:+ "Error: Syntax error." +:+ String Str.cr NL.

(** A world whose checker rejects every run with that diagnostic. *)
Definition crlf_world : World :=
  {| ollama_chat := fun _ _ _ => tagged_answer;
     coqc := fun _ _ fs => (ExitNonZero syntax_error_crlf, fs) |}.

(** A world whose checker rejects every run and says nothing. *)
Definition silent_world : World :=
  {| ollama_chat := fun _ _ _ => tagged_answer;
     coqc := fun _ _ fs => (ExitNonZero "", fs) |}.

(** * Facts about strings *)

#[local] Arguments String.append !_ _ / : simpl nomatch.

Section StringFacts.

Import Str.

Lemma app_nil_r (s : string) : s +:+ "" = s.
Proof. induction s as [|c s IH]; simpl; [reflexivity | now rewrite IH]. Qed.

Lemma app_assoc (a b c : string) : (a +:+ b) +:+ c = a +:+ (b +:+ c).
Proof. induction a as [|x a IH]; simpl; [reflexivity | now rewrite IH]. Qed.

Lemma length_app (a b : string) :
  String.length (a +:+ b) = String.length a + String.length b.
Proof. induction a as [|x a IH]; simpl; [reflexivity | now rewrite IH]. Qed.

Lemma all_app (p : ascii -> bool) (a b : string) :
  all p (a +:+ b) = all p a && all p b.
Proof.
  induction a as [|x a IH]; simpl; [reflexivity |].
  now rewrite IH, andb_assoc.
Qed.

Lemma drop_app (a b : string) : drop (String.length a) (a +:+ b) = b.
Proof. induction a as [|x a IH]; simpl; [now destruct b | exact IH]. Qed.

Lemma substring_0_app (a b : string) : substring 0 (String.length a) (a +:+ b) = a.
Proof.
  induction a as [|x a IH]; simpl; [now destruct b | now rewrite IH].
Qed.

Lemma substring_skip (pre s : string) (n : nat) :
  substring (String.length pre) n (pre +:+ s) = substring 0 n s.
Proof. induction pre as [|x pre IH]; simpl; [reflexivity | exact IH]. Qed.

(** The slice that starts after [pre] and is as long as [g] is [g]. *)
Lemma slice_app (pre g post : string) (a b : nat) :
  a = String.length pre -> b = String.length pre + String.length g ->
  slice a b (pre +:+ g +:+ post) = g.
Proof.
  intros -> ->. unfold slice.
  replace (String.length pre + String.length g - String.length pre)
    with (String.length g) by lia.
  rewrite substring_skip. apply substring_0_app.
Qed.

Lemma prefix_app (w s : string) : String.prefix w (w +:+ s) = true.
Proof.
  induction w as [|c w IH]; simpl; [now destruct s |].
  destruct (ascii_dec c c); [exact IH | congruence].
Qed.

Lemma prefix_split (w s : string) :
  String.prefix w s = true -> s = w +:+ drop (String.length w) s.
Proof.
  revert s. induction w as [|c w IH]; intros [|a s]; simpl; try easy.
  destruct (ascii_dec c a) as [->|]; [|easy].
  intros H. now rewrite <- IH.
Qed.

Lemma lstrip_all_space (s : string) : all isspace s = true -> lstrip s = "".
Proof.
  induction s as [|c s IH]; simpl; [reflexivity |].
  intros [Hc Hs]%andb_true_iff. rewrite Hc. auto.
Qed.

Lemma strip_all_space (s : string) : all isspace s = true -> strip s = "".
Proof. intros H. unfold strip. now rewrite lstrip_all_space. Qed.

Lemma first_line_split (s : string) :
  exists rest, s = first_line s +:+ rest /\ Re.at_eol rest = true
               /\ all dot (first_line s) = true.
Proof.
  induction s as [|c s (rest & IH & Hb & Ha)]; simpl.
  - exists "". repeat split.
  - destruct (Ascii.eqb c nl) eqn:E.
    + exists (String c s). simpl. now rewrite E.
    + exists rest. simpl. unfold dot at 1. rewrite E. simpl.
      repeat split; [now rewrite <- IH | exact Hb | exact Ha].
Qed.

End StringFacts.

(** * Facts about the matcher *)

Section MatcherFacts.

Import Str Re.

(** The equations of [exec], one per kind of item. *)

Lemma exec_nil adv i0 i mk s :
  exec [] adv i0 i mk s = if adv && (i =? i0) then None else Some (i, mk).
Proof. reflexivity. Qed.

Lemma exec_lit_cons c p adv i0 i mk a s :
  exec (Lit c :: p) adv i0 i mk (String a s) =
  if Ascii.eqb a c then exec p adv i0 (S i) mk s else None.
Proof. reflexivity. Qed.

Lemma exec_lit_nil c p adv i0 i mk : exec (Lit c :: p) adv i0 i mk "" = None.
Proof. reflexivity. Qed.

Lemma exec_one_cons cls p adv i0 i mk a s :
  exec (One cls :: p) adv i0 i mk (String a s) =
  if cls a then exec p adv i0 (S i) mk s else None.
Proof. reflexivity. Qed.

Lemma exec_one_nil cls p adv i0 i mk : exec (One cls :: p) adv i0 i mk "" = None.
Proof. reflexivity. Qed.

Lemma exec_mark n p adv i0 i mk s :
  exec (Mark n :: p) adv i0 i mk s = exec p adv i0 i (<[n := i]> mk) s.
Proof. reflexivity. Qed.

Lemma exec_eol p adv i0 i mk s :
  exec (EolM :: p) adv i0 i mk s = if at_eol s then exec p adv i0 i mk s else None.
Proof. reflexivity. Qed.

Lemma exec_star_nil cls p adv i0 i mk :
  exec (Star cls :: p) adv i0 i mk "" = exec p adv i0 i mk "".
Proof. reflexivity. Qed.

Lemma exec_star_cons cls p adv i0 i mk a s :
  exec (Star cls :: p) adv i0 i mk (String a s) =
  if cls a then
    match exec (Star cls :: p) adv i0 (S i) mk s with
    | Some r => Some r
    | None => exec p adv i0 i mk (String a s)
    end
  else exec p adv i0 i mk (String a s).
Proof. reflexivity. Qed.

Lemma exec_lazy_eq cls p adv i0 i mk s :
  exec (StarLazy cls :: p) adv i0 i mk s =
  match exec p adv i0 i mk s with
  | Some r => Some r
  | None =>
      match s with
      | String a s' =>
          if cls a then exec (StarLazy cls :: p) adv i0 (S i) mk s' else None
      | EmptyString => None
      end
  end.
Proof. destruct s; reflexivity. Qed.

#[local] Arguments exec : simpl never.

Lemma exec_lit_app w p adv i0 i mk s :
  exec (lit w ++ p) adv i0 i mk (w +:+ s) = exec p adv i0 (i + String.length w) mk s.
Proof.
  revert i. induction w as [|c w IH]; intros i; simpl.
  - now rewrite Nat.add_0_r.
  - rewrite exec_lit_cons, Ascii.eqb_refl, IH. f_equal. lia.
Qed.

Lemma exec_lit_no_prefix w p adv i0 i mk s :
  String.prefix w s = false -> exec (lit w ++ p) adv i0 i mk s = None.
Proof.
  revert i s. induction w as [|c w IH]; intros i [|a s]; simpl; try easy.
  rewrite exec_lit_cons.
  destruct (ascii_dec c a) as [->|Hne].
  - rewrite Ascii.eqb_refl. apply IH.
  - intros _. destruct (Ascii.eqb_spec a c); congruence.
Qed.

(** A greedy star that can take all of [a], and no more, hands over to
    the rest of the pattern after [a] when that succeeds there. *)
Lemma exec_star_max cls p adv i0 mk a rest r :
  all cls a = true -> boundary cls rest = true ->
  forall i, exec p adv i0 (i + String.length a) mk rest = Some r ->
  exec (Star cls :: p) adv i0 i mk (a +:+ rest) = Some r.
Proof.
  intros Ha Hb. induction a as [|x a IH]; intros i Hr.
  - simpl in *. rewrite Nat.add_0_r in Hr. destruct rest as [|c rest].
    + now rewrite exec_star_nil.
    + rewrite exec_star_cons. simpl in Hb.
      now destruct (cls c).
  - simpl in Ha. apply andb_true_iff in Ha as [Hx Ha].
    simpl. rewrite exec_star_cons, Hx, (IH Ha (S i)); [reflexivity |].
    rewrite <- Hr. f_equal. simpl. lia.
Qed.

(** A lazy star stops at the first offset where the rest of the
    pattern succeeds. *)
Lemma exec_lazy_first cls p adv i0 mk a rest r :
  all cls a = true ->
  (forall a1 a2 i, a = a1 +:+ a2 -> a2 <> "" ->
     exec p adv i0 i mk (a2 +:+ rest) = None) ->
  forall i, exec p adv i0 (i + String.length a) mk rest = Some r ->
  exec (StarLazy cls :: p) adv i0 i mk (a +:+ rest) = Some r.
Proof.
  induction a as [|x a IH]; intros Ha Hfail i Hr.
  - simpl in *. rewrite Nat.add_0_r in Hr. now rewrite exec_lazy_eq, Hr.
  - simpl in Ha. apply andb_true_iff in Ha as [Hx Ha].
    rewrite exec_lazy_eq.
    rewrite (Hfail "" (String x a) i) by easy.
    simpl. rewrite Hx. apply IH; [exact Ha | |].
    + intros a1 a2 j -> Hne. now apply (Hfail (String x a1) a2 j).
    + rewrite <- Hr. f_equal. simpl. lia.
Qed.

Lemma matches_star_here (cls : ascii -> bool) p i mk m rest mk' :
  matches p i mk m rest mk' ->
  exists a m', m = a +:+ m' /\ all cls a = true /\
               matches p (i + String.length a) mk m' rest mk'.
Proof. intros H. exists "", m. simpl. now rewrite Nat.add_0_r. Qed.

Lemma matches_star_more (cls : ascii -> bool) p i mk c m rest mk' :
  cls c = true ->
  (exists a m', m = a +:+ m' /\ all cls a = true /\
                matches p (S i + String.length a) mk m' rest mk') ->
  exists a m', String c m = a +:+ m' /\ all cls a = true /\
               matches p (i + String.length a) mk m' rest mk'.
Proof.
  intros Hc (a & m' & -> & Ha & Hm). exists (String c a), m'. simpl.
  rewrite Hc, Ha. repeat split.
  now replace (i + S (String.length a)) with (S i + String.length a) by lia.
Qed.

Lemma exec_sound p : forall adv i0 i mk s e mk',
  exec p adv i0 i mk s = Some (e, mk') ->
  exists m rest, s = m +:+ rest /\ matches p i mk m rest mk'
                 /\ e = i + String.length m.
Proof.
  induction p as [|it p IH]; intros adv i0 i mk s e mk' H.
  - rewrite exec_nil in H. destruct (adv && (i =? i0)); [easy |].
    injection H as <- <-. exists "", s. simpl. repeat split. lia.
  - assert (Hhere : forall cls i s,
              exec p adv i0 i mk s = Some (e, mk') ->
              exists m rest, s = m +:+ rest /\
                (exists a m', m = a +:+ m' /\ all cls a = true /\
                   matches p (i + String.length a) mk m' rest mk')
                /\ e = i + String.length m).
    { intros cls j t H'. apply IH in H' as (m & rest & -> & Hm & ->).
      exists m, rest. split; [reflexivity |]. split; [| reflexivity].
      now apply matches_star_here. }
    assert (Hmore : forall cls a s i,
              cls a = true ->
              (exists m rest, s = m +:+ rest /\
                (exists b m', m = b +:+ m' /\ all cls b = true /\
                   matches p (S i + String.length b) mk m' rest mk')
                /\ e = S i + String.length m) ->
              exists m rest, String a s = m +:+ rest /\
                (exists b m', m = b +:+ m' /\ all cls b = true /\
                   matches p (i + String.length b) mk m' rest mk')
                /\ e = i + String.length m).
    { intros cls a t j Hc (m & rest & -> & Hm & ->).
      exists (String a m), rest. simpl. split; [reflexivity |].
      split; [now apply matches_star_more | lia]. }
    destruct it as [c|cls|cls|cls| |n].
    + destruct s as [|a s]; [now rewrite exec_lit_nil in H |].
      rewrite exec_lit_cons in H.
      destruct (Ascii.eqb_spec a c) as [->|]; [|easy].
      apply IH in H as (m & rest & -> & Hm & ->).
      exists (String c m), rest. simpl. split; [reflexivity |].
      split; [eauto | lia].
    + destruct s as [|a s]; [now rewrite exec_one_nil in H |].
      rewrite exec_one_cons in H.
      destruct (cls a) eqn:Hc; [|easy].
      apply IH in H as (m & rest & -> & Hm & ->).
      exists (String a m), rest. simpl. split; [reflexivity |].
      split; [eauto | lia].
    + simpl. revert i H. induction s as [|a s IHs]; intros i H.
      * rewrite exec_star_nil in H. now apply Hhere.
      * rewrite exec_star_cons in H.
        destruct (cls a) eqn:Hc; [| now apply Hhere].
        destruct (exec (Star cls :: p) adv i0 (S i) mk s) as [r|] eqn:E;
          [| now apply Hhere].
        injection H as ->. apply Hmore; [exact Hc |]. now apply IHs.
    + simpl. revert i H. induction s as [|a s IHs]; intros i H.
      * rewrite exec_lazy_eq in H.
        destruct (exec p adv i0 i mk "") as [r|] eqn:E; [| easy].
        injection H as ->. now apply Hhere.
      * rewrite exec_lazy_eq in H.
        destruct (exec p adv i0 i mk (String a s)) as [r|] eqn:E.
        { injection H as ->. now apply Hhere. }
        destruct (cls a) eqn:Hc; [| easy].
        apply Hmore; [exact Hc |]. now apply IHs.
    + rewrite exec_eol in H. destruct (at_eol s) eqn:He; [| easy].
      apply IH in H as (m & rest & -> & Hm & ->).
      exists m, rest. simpl. auto.
    + rewrite exec_mark in H. apply IH in H as (m & rest & -> & Hm & ->).
      exists m, rest. simpl. auto.
Qed.

(** Under the must-advance rule no match ends where it started. *)
Lemma exec_accepts p : forall adv i0 i mk s e mk',
  exec p adv i0 i mk s = Some (e, mk') -> adv && (e =? i0) = false.
Proof.
  induction p as [|it p IH]; intros adv i0 i mk s e mk' H.
  - rewrite exec_nil in H. destruct (adv && (i =? i0)) eqn:E; [discriminate H |].
    now injection H as <- <-.
  - destruct it as [c|cls|cls|cls| |n].
    + destruct s as [|a s]; [now rewrite exec_lit_nil in H |].
      rewrite exec_lit_cons in H. destruct (Ascii.eqb a c); [eauto | discriminate H].
    + destruct s as [|a s]; [now rewrite exec_one_nil in H |].
      rewrite exec_one_cons in H. destruct (cls a); [eauto | discriminate H].
    + revert i H. induction s as [|a s IHs]; intros i H.
      * rewrite exec_star_nil in H. eauto.
      * rewrite exec_star_cons in H. destruct (cls a); [| eauto].
        destruct (exec (Star cls :: p) adv i0 (S i) mk s) as [r|] eqn:E; [| eauto].
        injection H as ->. eauto.
    + revert i H. induction s as [|a s IHs]; intros i H; rewrite exec_lazy_eq in H;
        destruct (exec p adv i0 i mk _) as [r|] eqn:E;
        try (injection H as ->; eauto); try discriminate H.
      destruct (cls a); [eauto | discriminate H].
    + rewrite exec_eol in H. destruct (at_eol s); [eauto | discriminate H].
    + rewrite exec_mark in H. eauto.
Qed.

(** A match ends inside the text. *)
Lemma exec_end p adv i0 i mk s e mk' :
  exec p adv i0 i mk s = Some (e, mk') -> i <= e <= i + String.length s.
Proof.
  intros (m & rest & -> & _ & ->)%exec_sound. rewrite length_app. lia.
Qed.

Lemma length_drop (n : nat) (s : string) :
  String.length (drop n s) = String.length s - n.
Proof.
  revert s. induction n as [|n IH]; intros [|a s]; simpl; auto.
Qed.

Lemma sub_loop_S fuel p repl adv s :
  sub_loop (S fuel) p repl adv s =
  match exec p adv 0 0 ∅ s with
  | Some (e, _) => repl +:+ sub_loop fuel p repl (e =? 0) (drop e s)
  | None =>
      match s with
      | String a s' => String a (sub_loop fuel p repl false s')
      | EmptyString => EmptyString
      end
  end.
Proof. reflexivity. Qed.

(** The turns [sub] allows are enough: more of them change nothing. *)
Lemma sub_loop_enough p repl : forall fuel1 fuel2 (adv : bool) s,
  2 * String.length s + (if adv then 0 else 1) < fuel1 ->
  2 * String.length s + (if adv then 0 else 1) < fuel2 ->
  sub_loop fuel1 p repl adv s = sub_loop fuel2 p repl adv s.
Proof.
  induction fuel1 as [|fuel1 IH]; intros fuel2 adv s H1 H2; [lia |].
  destruct fuel2 as [|fuel2]; [lia |]. rewrite !sub_loop_S.
  destruct (exec p adv 0 0 ∅ s) as [[e mk]|] eqn:E.
  - pose proof (exec_end _ _ _ _ _ _ _ _ E) as He.
    pose proof (exec_accepts _ _ _ _ _ _ _ _ E) as Ha.
    f_equal. revert Ha. destruct (Nat.eqb_spec e 0) as [->|Hne]; intros Ha.
    + destruct adv; [discriminate Ha |].
      apply IH; rewrite length_drop; simpl in *; lia.
    + apply IH; rewrite length_drop; destruct adv; simpl in *; lia.
  - destruct s as [|a s]; [reflexivity |]. f_equal.
    apply IH; destruct adv; simpl in *; lia.
Qed.

Lemma sub_enough p repl s fuel :
  2 * String.length s + 1 < fuel -> sub_loop fuel p repl false s = sub p repl s.
Proof. intros H. unfold sub. apply sub_loop_enough; simpl; lia. Qed.

(** [search] tries the offsets from the left. *)
Lemma search_from_skip p text pre s :
  (forall a1 a2 i, pre = a1 +:+ a2 -> a2 <> "" ->
     exec p false i i ∅ (a2 +:+ s) = None) ->
  forall i, search_from p text i (pre +:+ s)
            = search_from p text (i + String.length pre) s.
Proof.
  induction pre as [|x pre IH]; intros Hfail i.
  - simpl. now rewrite Nat.add_0_r.
  - pose proof (Hfail "" (String x pre) i eq_refl ltac:(easy)) as H0.
    simpl in *. rewrite H0, IH.
    + f_equal. lia.
    + intros a1 a2 j -> Hne. now apply (Hfail (String x a1) a2 j).
Qed.

Lemma search_from_here p text i s e mk :
  exec p false i i ∅ s = Some (e, mk) ->
  search_from p text i s =
  Some {| m_string := text; m_start := i; m_end := e; m_marks := mk |}.
Proof. intros H. destruct s; simpl; now rewrite H. Qed.

Lemma search_from_sound p text : forall s i m,
  search_from p text i s = Some m ->
  exists pre s', s = pre +:+ s' /\ m_string m = text
                 /\ m_start m = i + String.length pre
                 /\ exec p false (m_start m) (m_start m) ∅ s' = Some (m_end m, m_marks m).
Proof.
  induction s as [|a s IH]; intros i m H; simpl in H.
  - destruct (exec p false i i ∅ "") as [[e mk]|] eqn:E; [| easy].
    injection H as <-. exists "", "". simpl. rewrite Nat.add_0_r. auto.
  - destruct (exec p false i i ∅ (String a s)) as [[e mk]|] eqn:E.
    + injection H as <-. exists "", (String a s). simpl.
      rewrite Nat.add_0_r. auto.
    + apply IH in H as (pre & s' & -> & Ht & Hs & He).
      exists (String a pre), s'. simpl. repeat split; auto. lia.
Qed.

End MatcherFacts.

(** * Facts about the code extractor *)

Section ExtractorFacts.

Import Str Re.

#[local] Arguments exec : simpl never.

Lemma prefix_app_long (w x y : string) :
  String.length w <= String.length x ->
  String.prefix w (x +:+ y) = String.prefix w x.
Proof.
  revert x. induction w as [|c w IH]; intros [|a x] H; simpl in *;
    try reflexivity; try lia.
  - now destruct y.
  - destruct (ascii_dec c a); [apply IH; lia | reflexivity].
Qed.

Lemma occurs_here (w s : string) : occurs w s = false -> String.prefix w s = false.
Proof. destruct s; simpl; intros H; now apply orb_false_iff in H as [H _]. Qed.

Lemma occurs_app_r (w a s : string) : occurs w (a +:+ s) = false -> occurs w s = false.
Proof.
  induction a as [|c a IH]; simpl; [easy |].
  intros H. apply orb_false_iff in H as [_ H]. auto.
Qed.

(** No fence starts inside [a] when [a] followed by two backticks holds
    none, whatever follows. *)
Lemma no_fence_inside (a1 a2 rest : string) :
  occurs "```" ((a1 +:+ a2) +:+ "``") = false -> a2 <> "" ->
  String.prefix "```" (a2 +:+ "```" +:+ rest) = false.
Proof.
  intros H Hne. rewrite app_assoc in H.
  apply occurs_app_r, occurs_here in H.
  change ("```" +:+ rest) with ("``" +:+ "`" +:+ rest).
  rewrite <- app_assoc, prefix_app_long; [exact H |].
  rewrite length_app. destruct a2; [easy | simpl; lia].
Qed.

Lemma exec_fence_eq p adv i0 i mk s :
  exec (fence ++ p) adv i0 i mk s =
  if String.prefix "```" s then exec p adv i0 (i + 3) mk (drop 3 s) else None.
Proof.
  unfold fence. destruct (String.prefix "```" s) eqn:E.
  - apply prefix_split in E. rewrite E at 1. apply exec_lit_app.
  - now apply exec_lit_no_prefix.
Qed.

Lemma exec_closing_fence i0 i mk s :
  exec fence false i0 i mk s =
  if String.prefix "```" s then Some (i + 3, mk) else None.
Proof.
  rewrite <- (List.app_nil_r fence), exec_fence_eq.
  now destruct (String.prefix "```" s).
Qed.

Lemma code_pattern_eq :
  code_pattern = fence ++ Mark 0 :: StarLazy dot_all :: Mark 1 :: fence.
Proof. reflexivity. Qed.

Lemma all_dot_all (s : string) : all dot_all s = true.
Proof. induction s; simpl; auto. Qed.

(** The match of [code_pattern] at the start of a fenced region: the
    region runs to the first closing fence. *)
Lemma exec_code_pattern (g post : string) i0 i mk :
  occurs "```" (g +:+ "``") = false ->
  exec code_pattern false i0 i mk ("```" +:+ g +:+ "```" +:+ post) =
  Some (i + 3 + String.length g + 3,
        <[1 := i + 3 + String.length g]> (<[0 := i + 3]> mk)).
Proof.
  intros Hg. rewrite code_pattern_eq, exec_fence_eq, prefix_app.
  change 3 with (String.length "```") at 2. rewrite drop_app, exec_mark.
  apply exec_lazy_first.
  - apply all_dot_all.
  - intros a1 a2 j -> Hne. rewrite exec_mark, exec_closing_fence.
    now rewrite (no_fence_inside a1 a2 post).
  - rewrite exec_mark, exec_closing_fence, prefix_app. reflexivity.
Qed.

Lemma search_code_pattern (pre g post : string) :
  occurs "```" (pre +:+ "``") = false ->
  occurs "```" (g +:+ "``") = false ->
  let text := pre +:+ "```" +:+ g +:+ "```" +:+ post in
  search code_pattern text =
  Some {| m_string := text;
          m_start := String.length pre;
          m_end := String.length pre + 3 + String.length g + 3;
          m_marks := <[1 := String.length pre + 3 + String.length g]>
                       (<[0 := String.length pre + 3]> ∅) |}.
Proof.
  intros Hpre Hg text. unfold search. subst text.
  rewrite search_from_skip.
  - rewrite Nat.add_0_l. apply search_from_here. now apply exec_code_pattern.
  - intros a1 a2 j -> Hne. rewrite code_pattern_eq, exec_fence_eq.
    now rewrite (no_fence_inside a1 a2 (g +:+ "```" +:+ post)).
Qed.

Lemma exec_lazy_fence_sound : forall s i0 i mk e mk',
  exec (StarLazy dot_all :: Mark 1 :: fence) false i0 i mk s = Some (e, mk') ->
  exists g post, s = g +:+ "```" +:+ post
                 /\ occurs "```" (g +:+ "``") = false
                 /\ e = i + String.length g + 3
                 /\ mk' = <[1 := i + String.length g]> mk.
Proof.
  induction s as [|a s IH]; intros i0 i mk e mk' H;
    rewrite exec_lazy_eq, exec_mark, exec_closing_fence in H.
  - discriminate H.
  - destruct (String.prefix "```" (String a s)) eqn:E.
    + injection H as <- <-. exists "", (drop 3 (String a s)).
      split; [exact (prefix_split _ _ E) |]. simpl String.length.
      rewrite Nat.add_0_r. repeat split.
    + simpl dot_all in H. cbv iota in H.
      apply IH in H as (g & post & -> & Hg & -> & ->).
      exists (String a g), post. simpl String.length.
      split; [reflexivity |]. split; [| split; [lia | f_equal; lia]].
      change (String a g +:+ "``") with (String a (g +:+ "``")).
      simpl occurs. rewrite Hg, orb_false_r.
      change (String a (g +:+ "```" +:+ post))
        with (String a g +:+ ("``" +:+ "`" +:+ post)) in E.
      rewrite <- app_assoc, prefix_app_long in E; [exact E |].
      rewrite length_app. simpl. lia.
Qed.

(** What [search] finds for [code_pattern]: a fenced region whose
    content, group 1, runs to the first closing fence. *)
Lemma search_code_pattern_sound text m :
  search code_pattern text = Some m ->
  exists pre g post, text = pre +:+ "```" +:+ g +:+ "```" +:+ post
                     /\ occurs "```" (g +:+ "``") = false
                     /\ group m 1 = Some g.
Proof.
  intros H. apply search_from_sound in H as (pre & s' & -> & Ht & Hs & He).
  rewrite code_pattern_eq, exec_fence_eq in He.
  destruct (String.prefix "```" s') eqn:E; [| discriminate He].
  apply prefix_split in E. simpl String.length in E. rewrite exec_mark in He.
  apply exec_lazy_fence_sound in He as (g & post & Hd & Hg & _ & Hmk).
  rewrite Hd in E. exists pre, g, post. subst s'.
  split; [reflexivity |]. split; [exact Hg |].
  unfold group. rewrite Hmk, Ht.
  change (2 * 1 - 2) with 0. change (2 * 1 - 1) with 1.
  rewrite lookup_insert_ne, lookup_insert_eq, lookup_insert_eq by lia.
  f_equal. rewrite <- (app_assoc pre "```").
  apply slice_app; rewrite Hs, ?length_app; simpl; lia.
Qed.

Lemma code_pattern_group text m :
  search code_pattern text = Some m -> is_Some (group m 1).
Proof. intros (_ & g & _ & _ & _ & ->)%search_code_pattern_sound. eauto. Qed.

(** A substitution whose pattern starts with a fence changes nothing in
    a text that holds no fence. *)
Lemma sub_loop_no_fence p repl : forall fuel adv s,
  occurs "```" s = false -> sub_loop fuel (fence ++ p) repl adv s = s.
Proof.
  induction fuel as [|fuel IH]; intros adv s H; [reflexivity |].
  rewrite sub_loop_S, exec_fence_eq, (occurs_here _ _ H).
  destruct s as [|a s]; [reflexivity |].
  simpl in H. apply orb_false_iff in H as [_ H]. now rewrite IH.
Qed.

Lemma sub_no_fence p repl s :
  occurs "```" s = false -> sub (fence ++ p) repl s = s.
Proof. apply sub_loop_no_fence. Qed.

Lemma prefix_app_mono (w x y : string) :
  String.prefix w x = true -> String.prefix w (x +:+ y) = true.
Proof.
  revert x. induction w as [|c w IH]; intros [|a x]; simpl; try easy.
  - now destruct y.
  - destruct (ascii_dec c a); [apply IH | easy].
Qed.

Lemma occurs_app_l (w x y : string) :
  occurs w (x +:+ y) = false -> occurs w x = false.
Proof.
  induction x as [|a x IH]; intros H.
  - cbn [occurs]. rewrite orb_false_r.
    destruct (String.prefix w "") eqn:E; [| reflexivity].
    apply (prefix_app_mono _ _ y) in E. apply occurs_here in H. congruence.
  - change (String a x +:+ y) with (String a (x +:+ y)) in H.
    cbn [occurs] in H. apply orb_false_iff in H as [H1 H2].
    cbn [occurs]. rewrite (IH H2), orb_false_r.
    destruct (String.prefix w (String a x)) eqn:E; [| reflexivity].
    apply (prefix_app_mono _ _ y) in E.
    change (String a x +:+ y) with (String a (x +:+ y)) in E. congruence.
Qed.

Lemma lstrip_suffix (s : string) : exists ws, s = ws +:+ lstrip s.
Proof.
  induction s as [|c s [ws IH]]; [now exists "" |].
  simpl. destruct (isspace c).
  - exists (String c ws). simpl. now rewrite <- IH.
  - now exists "".
Qed.

Lemma rstrip_prefix (s : string) : exists ws, s = rstrip s +:+ ws.
Proof.
  induction s as [|c s [ws IH]]; [now exists "" |].
  simpl. destruct (rstrip s) as [|a r] eqn:E.
  - destruct (isspace c).
    + now exists (String c s).
    + exists ws. simpl. now rewrite IH at 1.
  - exists ws. simpl. now rewrite IH at 1.
Qed.

Lemma occurs_strip (w s : string) :
  occurs w s = false -> occurs w (strip s) = false.
Proof.
  intros H. unfold strip.
  destruct (lstrip_suffix s) as [ws Hl]. rewrite Hl in H.
  apply occurs_app_r in H.
  destruct (rstrip_prefix (lstrip s)) as [ws' Hr]. rewrite Hr in H.
  now apply occurs_app_l in H.
Qed.

Lemma rstrip_idem (s : string) : rstrip (rstrip s) = rstrip s.
Proof.
  induction s as [|c s IH]; [reflexivity |].
  simpl. destruct (rstrip s) as [|a r] eqn:E.
  - destruct (isspace c) eqn:Hc; simpl; [reflexivity | now rewrite Hc].
  - simpl. simpl in IH. now rewrite IH.
Qed.

Lemma lstrip_head (s : string) : boundary isspace (lstrip s) = true.
Proof.
  induction s as [|c s IH]; [reflexivity |].
  simpl. destruct (isspace c) eqn:Hc; [exact IH | simpl; now rewrite Hc].
Qed.

Lemma lstrip_rstrip (t : string) :
  boundary isspace t = true -> lstrip (rstrip t) = rstrip t.
Proof.
  destruct t as [|c t]; [reflexivity |]. simpl. intros Hc.
  apply negb_true_iff in Hc.
  destruct (rstrip t); rewrite ?Hc; simpl; now rewrite Hc.
Qed.

Lemma strip_idem (s : string) : strip (strip s) = strip s.
Proof.
  unfold strip. rewrite lstrip_rstrip by apply lstrip_head. apply rstrip_idem.
Qed.

(** The two substitutions of [extract_code_segment] never change the
    text: group 1 holds no fence, and both patterns start with one. *)
Lemma extract_code_segment_eq (text : string) :
  extract_code_segment text =
  match search code_pattern text with
  | Some m => match group m 1 with Some g => strip g | None => "" end
  | None => ""
  end.
Proof.
  unfold extract_code_segment.
  destruct (search code_pattern text) as [m|] eqn:E; [| reflexivity].
  apply search_code_pattern_sound in E as (_ & g & _ & _ & Hg & ->).
  apply occurs_app_l, (occurs_strip "```") in Hg.
  unfold tag_line_pattern, closing_fence_pattern.
  rewrite !sub_no_fence by (rewrite ?sub_no_fence; exact Hg).
  apply strip_idem.
Qed.

(** A text without a fenced region has no code segment. *)
Lemma extract_code_segment_none (text : string) :
  (forall pre g post, text <> pre +:+ "```" +:+ g +:+ "```" +:+ post) ->
  extract_code_segment text = "".
Proof.
  intros H. rewrite extract_code_segment_eq.
  destruct (search code_pattern text) as [m|] eqn:E; [| reflexivity].
  apply search_code_pattern_sound in E as (pre & g & post & -> & _).
  now destruct (H pre g post).
Qed.

(** The code segment of a text is what its first fenced region holds,
    stripped. *)
Lemma extract_code_segment_first (pre g post : string) :
  occurs "```" (pre +:+ "``") = false ->
  occurs "```" (g +:+ "``") = false ->
  extract_code_segment (pre +:+ "```" +:+ g +:+ "```" +:+ post) = strip g.
Proof.
  intros Hpre Hg. rewrite extract_code_segment_eq, search_code_pattern by assumption.
  unfold group. cbn [m_marks m_string].
  change (2 * 1 - 2) with 0. change (2 * 1 - 1) with 1.
  rewrite lookup_insert_ne, lookup_insert_eq, lookup_insert_eq by lia.
  rewrite <- (app_assoc pre "```"), slice_app; [reflexivity | |];
    rewrite ?length_app; simpl; lia.
Qed.

End ExtractorFacts.

(** * Facts about the error parser *)

Section ParserFacts.

Import Str Re.

#[local] Arguments exec : simpl never.

Lemma is_number_inv (s : string) :
  is_number s = true ->
  exists d ds, s = String d ds /\ isdecimal d = true /\ all isdecimal ds = true.
Proof.
  destruct s as [|d ds]; [easy |]. unfold is_number. simpl.
  intros [H1 H2]%andb_true_iff. eauto.
Qed.

Lemma exec_plus_max cls p adv i0 mk c a rest r :
  cls c = true -> all cls a = true -> boundary cls rest = true ->
  forall i, exec p adv i0 (i + S (String.length a)) mk rest = Some r ->
  exec (plus cls ++ p) adv i0 i mk (String c a +:+ rest) = Some r.
Proof.
  intros Hc Ha Hb i Hr. unfold plus. cbn [app String.append].
  rewrite exec_one_cons, Hc. apply exec_star_max; try assumption.
  rewrite <- Hr. f_equal. lia.
Qed.

Lemma boundary_dot (rest : string) : at_eol rest = true -> boundary dot rest = true.
Proof. destruct rest; simpl; [easy |]. unfold dot. intros ->. reflexivity. Qed.

Lemma diagnostic_eq name line first last message :
  diagnostic name line first last message =
  "File " +:+ String dq (name +:+ String dq (", line " +:+ line +:+
    ", characters " +:+ first +:+ String "-" (last +:+
       String ":" (String nl ("Error: " +:+ message))))).
Proof. reflexivity. Qed.

Lemma error_pattern_eq :
  error_pattern =
  lit "File " ++ Lit dq :: Star (other_than dq) :: Lit dq ::
  (lit ", line " ++ Mark 0 :: (plus isdecimal ++ Mark 1 ::
  (lit ", characters " ++ Mark 2 :: (plus isdecimal ++ Lit "-"%char ::
  (plus isdecimal ++ Mark 3 :: Lit ":"%char :: Lit nl ::
  (lit "Error: " ++ [Mark 4; Star dot; Mark 5])))))).
Proof. reflexivity. Qed.

(** The match of [error_pattern] at the start of a diagnostic: the
    message group stops at the end of the first line. *)
Lemma exec_error_pattern name d1 n1 d2 n2 d3 n3 msg rest i :
  all (other_than dq) name = true ->
  isdecimal d1 = true -> all isdecimal n1 = true ->
  isdecimal d2 = true -> all isdecimal n2 = true ->
  isdecimal d3 = true -> all isdecimal n3 = true ->
  all dot msg = true -> at_eol rest = true ->
  let o1 := i + 14 + String.length name in
  let o2 := o1 + S (String.length n1) + 13 in
  let o3 := o2 + S (String.length n2) + 1 + S (String.length n3) + 9 in
  exec error_pattern false i i ∅
    (diagnostic name (String d1 n1) (String d2 n2) (String d3 n3) (msg +:+ rest)) =
  Some (o3 + String.length msg,
        <[5 := o3 + String.length msg]> (<[4 := o3]>
        (<[3 := o2 + S (String.length n2) + 1 + S (String.length n3)]> (<[2 := o2]>
        (<[1 := o1 + S (String.length n1)]> (<[0 := o1]> ∅)))))).
Proof.
  intros Hname Hd1 Hn1 Hd2 Hn2 Hd3 Hn3 Hmsg Hrest o1 o2 o3.
  rewrite error_pattern_eq, diagnostic_eq.
  rewrite exec_lit_app, exec_lit_cons, Ascii.eqb_refl.
  apply exec_star_max; [exact Hname | reflexivity |].
  rewrite exec_lit_cons, Ascii.eqb_refl, exec_lit_app, exec_mark.
  apply exec_plus_max; [exact Hd1 | exact Hn1 | reflexivity |].
  rewrite exec_mark, exec_lit_app, exec_mark.
  apply exec_plus_max; [exact Hd2 | exact Hn2 | reflexivity |].
  rewrite exec_lit_cons, Ascii.eqb_refl.
  apply exec_plus_max; [exact Hd3 | exact Hn3 | reflexivity |].
  rewrite exec_mark, !exec_lit_cons, !Ascii.eqb_refl, exec_lit_app, exec_mark.
  apply exec_star_max; [exact Hmsg | now apply boundary_dot |].
  rewrite exec_mark, exec_nil. cbn [andb]. subst o1 o2 o3.
  simpl String.length. repeat (f_equal; try lia).
Qed.

Lemma slice_at (text pre g post : string) (a b : nat) :
  text = pre +:+ g +:+ post ->
  a = String.length pre -> b = String.length pre + String.length g ->
  slice a b text = g.
Proof. intros ->. apply slice_app. Qed.

(** A diagnostic parses into its line, its character range and the
    first line of its message. *)
Lemma parse_coq_error_diagnostic name line first last message :
  all (other_than dq) name = true ->
  is_number line = true -> is_number first = true -> is_number last = true ->
  parse_coq_error (diagnostic name line first last message) =
  {[ "line" := line; "characters" := first +:+ "-" +:+ last;
     "message" := first_line message ]}.
Proof.
  intros Hname (d1 & n1 & -> & Hd1 & Hn1)%is_number_inv
               (d2 & n2 & -> & Hd2 & Hn2)%is_number_inv
               (d3 & n3 & -> & Hd3 & Hn3)%is_number_inv.
  destruct (first_line_split message) as (rest & Hsplit & Hrest & Hfl).
  set (fl := first_line message) in *. clearbody fl. subst message.
  unfold parse_coq_error, search.
  rewrite (search_from_here _ _ _ _ _ _
             (exec_error_pattern name d1 n1 d2 n2 d3 n3 fl rest 0
                Hname Hd1 Hn1 Hd2 Hn2 Hd3 Hn3 Hfl Hrest)).
  unfold error_groups, groupdict, group. cbn [m_marks m_string].
  change (2 * 1 - 2) with 0. change (2 * 1 - 1) with 1.
  change (2 * 2 - 2) with 2. change (2 * 2 - 1) with 3.
  change (2 * 3 - 2) with 4. change (2 * 3 - 1) with 5.
  set (text := diagnostic _ _ _ _ _).
  simplify_map_eq.
  rewrite (slice_at text
             ("File " +:+ DQ +:+ name +:+ DQ +:+ ", line ")
             (String d1 n1)
             (", characters " +:+ String d2 n2 +:+ "-" +:+ String d3 n3
                +:+ ":" +:+ NL +:+ "Error: " +:+ fl +:+ rest));
    [| subst text; unfold diagnostic; now rewrite !app_assoc
     | rewrite !length_app; simpl; lia | rewrite !length_app; simpl; lia ].
  rewrite (slice_at text
             ("File " +:+ DQ +:+ name +:+ DQ +:+ ", line " +:+ String d1 n1
                +:+ ", characters ")
             (String d2 n2 +:+ "-" +:+ String d3 n3)
             (":" +:+ NL +:+ "Error: " +:+ fl +:+ rest));
    [| subst text; unfold diagnostic; now rewrite !app_assoc
     | rewrite !length_app; simpl; lia | rewrite !length_app; simpl; lia ].
  rewrite (slice_at text
             ("File " +:+ DQ +:+ name +:+ DQ +:+ ", line " +:+ String d1 n1
                +:+ ", characters " +:+ String d2 n2 +:+ "-" +:+ String d3 n3
                +:+ ":" +:+ NL +:+ "Error: ")
             fl rest);
    [| subst text; unfold diagnostic; now rewrite !app_assoc
     | rewrite !length_app; simpl; lia | rewrite !length_app; simpl; lia ].
  reflexivity.
Qed.

Lemma matches_lit w p : forall i mk m rest mk',
  matches (lit w ++ p) i mk m rest mk' ->
  exists m', m = w +:+ m' /\ matches p (i + String.length w) mk m' rest mk'.
Proof.
  induction w as [|c w IH]; intros i mk m rest mk' H; simpl in *.
  - exists m. now rewrite Nat.add_0_r.
  - destruct H as (m1 & -> & H). apply IH in H as (m2 & -> & H).
    exists m2. split; [reflexivity |].
    now replace (i + S (String.length w)) with (S i + String.length w) by lia.
Qed.

Lemma matches_plus cls p i mk m rest mk' :
  matches (plus cls ++ p) i mk m rest mk' ->
  exists n m', m = n +:+ m' /\ nonempty n = true /\ all cls n = true
               /\ matches p (i + String.length n) mk m' rest mk'.
Proof.
  simpl. intros (c & m1 & -> & Hc & a & m2 & -> & Ha & H).
  exists (String c a), m2. simpl. rewrite Hc, Ha. repeat split.
  now replace (i + S (String.length a)) with (S i + String.length a) by lia.
Qed.

(** What [search] finds for [error_pattern] is a diagnostic. *)
Lemma search_error_pattern_sound text m :
  search error_pattern text = Some m ->
  exists pre name line first last tail,
    text = pre +:+ diagnostic name line first last tail
    /\ all (other_than dq) name = true
    /\ is_number line = true /\ is_number first = true /\ is_number last = true
    /\ exists a0 a1 a2 a3 a4 a5,
         m_marks m = <[5 := a5]> (<[4 := a4]> (<[3 := a3]> (<[2 := a2]>
                       (<[1 := a1]> (<[0 := a0]> ∅))))).
Proof.
  intros H. apply search_from_sound in H as (pre & s' & -> & _ & _ & He).
  apply exec_sound in He as (mt & rest & -> & Hm & _).
  rewrite error_pattern_eq in Hm.
  apply matches_lit in Hm as (m1 & -> & Hm). cbn [matches] in Hm.
  destruct Hm as (m2 & -> & name & m3 & -> & Hname & m4 & -> & Hm).
  apply matches_lit in Hm as (m5 & -> & Hm). cbn [matches] in Hm.
  apply matches_plus in Hm as (line & m6 & -> & Hl1 & Hl2 & Hm). cbn [matches] in Hm.
  apply matches_lit in Hm as (m7 & -> & Hm). cbn [matches] in Hm.
  apply matches_plus in Hm as (first & m8 & -> & Hf1 & Hf2 & Hm). cbn [matches] in Hm.
  destruct Hm as (m9 & -> & Hm).
  apply matches_plus in Hm as (last & m10 & -> & Ha1 & Ha2 & Hm). cbn [matches] in Hm.
  destruct Hm as (m11 & -> & m12 & -> & Hm).
  apply matches_lit in Hm as (m13 & -> & Hm). cbn [matches] in Hm.
  destruct Hm as (msg & m14 & -> & _ & -> & Hmk).
  exists pre, name, line, first, last, (msg +:+ rest).
  unfold is_number. rewrite Hname, Hl1, Hl2, Hf1, Hf2, Ha1, Ha2.
  split; [| repeat split; rewrite Hmk; eauto 10]. f_equal. rewrite diagnostic_eq.
  repeat (progress cbn [String.append] || rewrite app_assoc). reflexivity.
Qed.

(** A text that holds no diagnostic parses into the empty mapping. *)
Lemma parse_coq_error_none text :
  (forall pre name line first last message post,
     all (other_than dq) name = true ->
     is_number line = true -> is_number first = true -> is_number last = true ->
     text <> pre +:+ diagnostic name line first last message +:+ post) ->
  parse_coq_error text = ∅.
Proof.
  intros H. unfold parse_coq_error.
  destruct (search error_pattern text) as [m|] eqn:E; [| reflexivity].
  apply search_error_pattern_sound in E
    as (pre & name & line & first & last & tail & -> & Hn & Hl & Hf & Ha & _).
  destruct (H pre name line first last tail "" Hn Hl Hf Ha).
  now rewrite app_nil_r.
Qed.

(** The result of the parser is empty or holds the three keys: each
    named group takes part in every match. *)
Lemma parse_coq_error_keys text :
  parse_coq_error text = ∅
  \/ exists line characters message,
       parse_coq_error text
       = {[ "line" := line; "characters" := characters; "message" := message ]}.
Proof.
  unfold parse_coq_error.
  destruct (search error_pattern text) as [m|] eqn:E; [right | now left].
  apply search_error_pattern_sound in E
    as (_ & _ & _ & _ & _ & _ & _ & _ & _ & _ & _ & a0 & a1 & a2 & a3 & a4 & a5 & Hmk).
  unfold error_groups, groupdict, group. rewrite Hmk.
  change (2 * 1 - 2) with 0. change (2 * 1 - 1) with 1.
  change (2 * 2 - 2) with 2. change (2 * 2 - 1) with 3.
  change (2 * 3 - 2) with 4. change (2 * 3 - 1) with 5.
  simplify_map_eq. eauto.
Qed.

End ParserFacts.

(** * Facts about the program *)

Section ProgramFacts.

Variable W : World.
Variable self : CoqInterface.

Lemma unchanged_outside_refl st : unchanged_outside st st.
Proof. now unfold unchanged_outside. Qed.

Lemma unchanged_outside_print e st : unchanged_outside st (add_stdout e st).
Proof. now unfold unchanged_outside. Qed.

Lemma unchanged_outside_trans st1 st2 st3 :
  unchanged_outside st1 st2 -> unchanged_outside st2 st3 -> unchanged_outside st1 st3.
Proof. unfold unchanged_outside. intros (-> & -> & ->) (-> & -> & ->). auto. Qed.

Lemma getitem_frame d key st : final_state (getitem d key st) = st.
Proof. unfold getitem. now destruct (d !! key). Qed.

Lemma construct_error_message_frame errors st :
  unchanged_outside st (final_state (construct_error_message errors st)).
Proof.
  destruct errors as [e|]; unfold construct_error_message, bind, print, ret;
    [| apply unchanged_outside_print].
  unfold getitem.
  destruct (parse_coq_error e !! "line"); [| apply unchanged_outside_print].
  destruct (parse_coq_error e !! "characters"); [| apply unchanged_outside_print].
  destruct (parse_coq_error e !! "message"); apply unchanged_outside_print.
Qed.

Lemma construct_ollama_prompt_frame first errors st :
  unchanged_outside st (final_state (construct_ollama_prompt self first errors st)).
Proof.
  pose proof (construct_error_message_frame errors st) as H.
  unfold construct_ollama_prompt, bind, ret.
  destruct first, (truthy errors); try apply unchanged_outside_refl;
    now destruct (construct_error_message errors st).
Qed.

Lemma generate_coq_code_frame first errors st :
  unchanged_outside st (final_state (generate_coq_code W self first errors st)).
Proof.
  pose proof (construct_ollama_prompt_frame first errors st) as H.
  unfold generate_coq_code, bind, print, chat.
  now destruct (construct_ollama_prompt self first errors st).
Qed.

(** An attempt whose answer holds no code segment: nothing is written,
    the checker is not run, and the attempt fails with a fixed message. *)
Lemma compile_and_check_no_code first errors st coq_code st1 :
  generate_coq_code W self first errors st = Ok coq_code st1 ->
  extract_code_segment coq_code = "" ->
  compile_and_check W self first errors st
  = Ok (false, Some no_code_message) (add_stdout no_code_notice st1)
  /\ unchanged_outside st (add_stdout no_code_notice st1).
Proof.
  intros Hgen Hex. split.
  - unfold compile_and_check, bind. now rewrite Hgen, Hex.
  - pose proof (generate_coq_code_frame first errors st) as H.
    rewrite Hgen in H. exact H.
Qed.

Lemma main_loop_failed n i status errors st errors' st' :
  compile_and_check W self (i =? 0) errors (incr_attempts st) = Ok (false, errors') st' ->
  main_loop W self (S n) i status errors st
  = main_loop W self n (S i) false errors' (add_stdout trying_again st').
Proof. intros H. cbn [main_loop]. unfold bind at 1 2, count_attempt. now rewrite H. Qed.

Lemma main_loop_succeeded n i status errors st errors' st' :
  compile_and_check W self (i =? 0) errors (incr_attempts st) = Ok (true, errors') st' ->
  main_loop W self (S n) i status errors st = Ok (true, errors') st'.
Proof. intros H. cbn [main_loop]. unfold bind at 1 2, count_attempt. now rewrite H. Qed.

Lemma main_loop_raised n i status errors st e st' :
  compile_and_check W self (i =? 0) errors (incr_attempts st) = Raise e st' ->
  main_loop W self (S n) i status errors st = Raise e st'.
Proof. intros H. cbn [main_loop]. unfold bind at 1 2, count_attempt. now rewrite H. Qed.

(** An attempt leaves the count of rounds alone. *)
Lemma compile_and_check_attempts first errors st :
  attempts (final_state (compile_and_check W self first errors st)) = attempts st.
Proof.
  pose proof (generate_coq_code_frame first errors st) as (_ & _ & H).
  unfold compile_and_check, bind.
  destruct (generate_coq_code W self first errors st) as [code st1|e st1];
    simpl in H; [| exact H].
  destruct (String.eqb (extract_code_segment code) ""); [exact H |].
  unfold write_to_file, write_file, run_coqc, subprocess_run, bind, ret, print.
  cbn [files coqcs set_files].
  destruct (coqc W _ _ _) as [[|stderr] fs']; cbn; [exact H |].
  unfold parse_errors. cbn. now destruct (_ !! _).
Qed.

Lemma failing_rounds_attempts : forall k i errors st e st',
  failing_rounds W self k i errors st = Some (e, st') ->
  attempts st' = attempts st + k.
Proof.
  induction k as [|k IH]; intros i errors st e st' H; simpl in H.
  - injection H as _ <-. lia.
  - pose proof (compile_and_check_attempts (i =? 0) errors (incr_attempts st)) as Ha.
    destruct (compile_and_check W self (i =? 0) errors (incr_attempts st))
      as [[[|] e1] st1|]; try discriminate H.
    apply IH in H. simpl in *. lia.
Qed.

(** After [k] failed rounds the loop goes on with what is left of its
    budget. *)
Lemma main_loop_after_failing : forall k n i errors st e st',
  failing_rounds W self k i errors st = Some (e, st') ->
  main_loop W self (k + n) i false errors st = main_loop W self n (i + k) false e st'.
Proof.
  induction k as [|k IH]; intros n i errors st e st' H; simpl in H.
  - injection H as <- <-. now rewrite Nat.add_0_r.
  - destruct (compile_and_check W self (i =? 0) errors (incr_attempts st))
      as [[[|] e1] st1|] eqn:E; try discriminate H.
    change (S k + n) with (S (k + n)).
    rewrite (main_loop_failed _ _ _ _ _ _ _ E), (IH _ _ _ _ _ _ H).
    f_equal. lia.
Qed.

(** The loop never starts more rounds than its budget. *)
Lemma main_loop_bound : forall n i status errors st,
  attempts (final_state (main_loop W self n i status errors st)) <= attempts st + n.
Proof.
  induction n as [|n IH]; intros i status errors st.
  - simpl. lia.
  - pose proof (compile_and_check_attempts (i =? 0) errors (incr_attempts st)) as Ha.
    destruct (compile_and_check W self (i =? 0) errors (incr_attempts st))
      as [[[|] e1] st1|e1 st1] eqn:E.
    + rewrite (main_loop_succeeded _ _ _ _ _ _ _ E). simpl in *. lia.
    + rewrite (main_loop_failed _ _ _ _ _ _ _ E).
      specialize (IH (S i) false e1 (add_stdout trying_again st1)).
      simpl in *. lia.
    + rewrite (main_loop_raised _ _ _ _ _ _ _ E). simpl in *. lia.
Qed.

End ProgramFacts.

(** * The matcher on small inputs *)

(** [re.sub] with a pattern that matches the empty string: an empty
    match is replaced too, but not twice at one offset. *)
Example sub_empty_matches :
  Re.sub [Re.Star Str.isletter] "-" "ab1cd" = "--1--".
Proof. vm_compute. reflexivity. Qed.

(** The tag-line pattern removes an opening fence with its tag. *)
Example sub_tag_line :
  Re.sub tag_line_pattern "" ("ab```coq" +:+ NL +:+ "xyz") = "abxyz".
Proof. vm_compute. reflexivity. Qed.

(** The closing-fence pattern gives back the newline it ran over to find
    the end of the line. *)
Example sub_closing_fence :
  Re.sub closing_fence_pattern "" ("x" +:+ NL +:+ "```  " +:+ NL +:+ "y")
  = "x" +:+ NL +:+ NL +:+ "y".
Proof. vm_compute. reflexivity. Qed.

(** The region runs from the first fence to the next one. *)
Example extract_four_backticks : extract_code_segment "````x```" = "`x".
Proof. vm_compute. reflexivity. Qed.

(** One fence alone opens no region. *)
Example extract_single_fence : extract_code_segment "a```b" = "".
Proof. vm_compute. reflexivity. Qed.

Example strip_unicode_space :
  Str.strip (String "028" (" a " +:+ String "133" (String "160" ""))) = "a".
Proof. vm_compute. reflexivity. Qed.

(** * The properties *)

Lemma occurs_intro (w pre rest : string) : Str.occurs w (pre +:+ w +:+ rest) = true.
Proof.
  induction pre as [|c pre IH].
  - change ("" +:+ w +:+ rest) with (w +:+ rest).
    pose proof (prefix_app w rest) as H.
    destruct (w +:+ rest); cbn [Str.occurs]; now rewrite H.
  - change (String c pre +:+ w +:+ rest) with (String c (pre +:+ w +:+ rest)).
    cbn [Str.occurs]. rewrite IH. apply orb_true_r.
Qed.

Lemma no_fence_no_region (text : string) :
  Str.occurs "```" text = false ->
  forall pre g post, text <> pre +:+ "```" +:+ g +:+ "```" +:+ post.
Proof. intros H pre g post ->. now rewrite occurs_intro in H. Qed.

Lemma prefix_cons_ne (c a : ascii) (w s : string) :
  c <> a -> String.prefix (String c w) (String a s) = false.
Proof. intros H. simpl. now destruct (ascii_dec c a). Qed.

Lemma blank_no_fence (ws : string) :
  Str.all Str.isspace ws = true -> Str.occurs "```" (ws +:+ "``") = false.
Proof.
  induction ws as [|c ws IH]; [reflexivity |].
  cbn [Str.all]. intros [Hc Hws]%andb_true_iff.
  change (String c ws +:+ "``") with (String c (ws +:+ "``")).
  cbn [Str.occurs]. rewrite (IH Hws), orb_false_r.
  apply prefix_cons_ne. intros <-. discriminate Hc.
Qed.

Lemma construct_error_message_unparsed e st :
  parse_coq_error e = ∅ ->
  construct_error_message (Some e) st
  = Raise (KeyError "line") (add_stdout (PrintDict "errordict:" ∅) st).
Proof. intros H. unfold construct_error_message. now rewrite H. Qed.

(** ** The driving loop *)

(** C1, as amended: when the code extraction of an attempt returns the
    empty string, the checker is not run and no file is written in that
    attempt, and the attempt returns failure with the message [No code
    segment found in response.].  The run does not stop on that account;
    the loop handles the attempt as any failed one: when it was the last
    of the budget the run ends without success with that message, and
    when attempts are left the loop goes on to the next one and hands it
    that message as its prior error. *)
Theorem extraction_failure_is_retried W self n i status errors st coq_code st1 :
  generate_coq_code W self (i =? 0) errors (incr_attempts st) = Ok coq_code st1 ->
  extract_code_segment coq_code = "" ->
  let st2 := add_stdout no_code_notice st1 in
  let st3 := add_stdout trying_again st2 in
  compile_and_check W self (i =? 0) errors (incr_attempts st)
  = Ok (false, Some no_code_message) st2
  /\ coqcs st2 = coqcs st /\ files st2 = files st
  /\ main_loop W self 1 i status errors st = Ok (false, Some no_code_message) st3
  /\ main_loop W self (S (S n)) i status errors st
     = (do '(status', errors') <-
          compile_and_check W self false (Some no_code_message) ;
        if status' then ret (status', errors')
        else print trying_again ;; main_loop W self n (S (S i)) status' errors')
         (incr_attempts st3).
Proof.
  intros Hgen Hex st2 st3.
  destruct (compile_and_check_no_code W self _ _ _ _ _ Hgen Hex) as [Hcc (Hf & Hc & _)].
  split; [exact Hcc |]. split; [exact Hc |]. split; [exact Hf |].
  split; rewrite (main_loop_failed W self _ _ _ _ _ _ _ Hcc); reflexivity.
Qed.

Lemma extraction_failure_is_retried_witness :
  let self := init "prove 1=1" main_metaprompt "temp.v" default_model in
  let st := initial ∅ in
  let r := generate_coq_code mute_world self true None (incr_attempts st) in
  let st3 := add_stdout trying_again (add_stdout no_code_notice (final_state r)) in
  r = Ok "I cannot write this proof." (final_state r)
  /\ extract_code_segment "I cannot write this proof." = ""
  /\ coqcs (add_stdout no_code_notice (final_state r)) = 0
  /\ main_loop mute_world self 1 0 false None st
     = Ok (false, Some no_code_message) st3.
Proof.
  intros self st r st3.
  assert (H1 : r = Ok "I cannot write this proof." (final_state r)) by reflexivity.
  assert (H2 : extract_code_segment "I cannot write this proof." = "")
    by (vm_compute; reflexivity).
  split; [exact H1 |]. split; [exact H2 |].
  destruct (extraction_failure_is_retried mute_world self 0 0 false None st _ _ H1 H2)
    as (_ & Hc & _ & Hlast & _).
  split; [exact Hc | exact Hlast].
Defined.

(** C1, as stated, fails: the model answers without code in round one,
    and the run goes on into a second round, which hands the message of
    the first to the rendering of the next prompt. *)
Lemma extraction_failure_run_goes_on :
  let r := main mute_world "prove 1=1" default_model "temp.v" (initial ∅) in
  r = Raise (KeyError "line") (final_state r)
  /\ attempts (final_state r) = 2
  /\ coqcs (final_state r) = 0
  /\ stdout (final_state r) !! 2 = Some trying_again
  /\ stdout (final_state r) !! 3 = Some (PrintDict "errordict:" (parse_coq_error no_code_message)).
Proof. vm_compute. repeat split. Qed.

(** C4: with a budget of [M] rounds, when the first [K] rounds fail and
    round [K + 1 <= M] succeeds the loop performs exactly [K + 1] rounds
    and ends in success; when [M] rounds fail it performs exactly [M]
    rounds and ends in failure; and however a run ends, it has started
    no more than [M] rounds. *)
Theorem main_loop_rounds W self M st :
  (forall K e stK e' st',
     K + 1 <= M ->
     failing_rounds W self K 0 None st = Some (e, stK) ->
     compile_and_check W self (K =? 0) e (incr_attempts stK) = Ok (true, e') st' ->
     main_loop W self M 0 false None st = Ok (true, e') st'
     /\ attempts st' = attempts st + (K + 1))
  /\ (forall e stM,
        failing_rounds W self M 0 None st = Some (e, stM) ->
        main_loop W self M 0 false None st = Ok (false, e) stM
        /\ attempts stM = attempts st + M)
  /\ attempts (final_state (main_loop W self M 0 false None st)) <= attempts st + M.
Proof.
  split; [| split].
  - intros K e stK e' st' HK Hfail Hok.
    replace M with (K + S (M - K - 1)) by lia.
    rewrite (main_loop_after_failing _ _ _ _ _ _ _ _ _ Hfail).
    rewrite (main_loop_succeeded _ _ _ _ _ _ _ _ _ Hok). split; [reflexivity |].
    pose proof (compile_and_check_attempts W self (K =? 0) e (incr_attempts stK)) as Ha.
    rewrite Hok in Ha. apply failing_rounds_attempts in Hfail.
    simpl in Ha. lia.
  - intros e stM Hfail.
    pose proof (main_loop_after_failing _ _ _ 0 _ _ _ _ _ Hfail) as H.
    rewrite Nat.add_0_r in H. rewrite H. split; [reflexivity |].
    now apply failing_rounds_attempts in Hfail.
  - apply main_loop_bound.
Qed.

Lemma main_loop_rounds_witness :
  let self := init "prove 1=1" main_metaprompt "temp.v" default_model in
  let r := main retry_world "prove 1=1" default_model "temp.v" (initial ∅) in
  (exists e stK,
     failing_rounds retry_world self 1 0 None (initial ∅) = Some (e, stK)
     /\ compile_and_check retry_world self false e (incr_attempts stK)
        = Ok (true, None) (final_state r))
  /\ r = Ok (true, None) (final_state r)
  /\ attempts (final_state r) = 2.
Proof.
  intros self r.
  destruct (failing_rounds retry_world self 1 0 None (initial ∅))
    as [[e stK]|] eqn:Hfail; [| discriminate Hfail].
  assert (Hok : compile_and_check retry_world self (1 =? 0) e (incr_attempts stK)
                = Ok (true, None) (final_state r)).
  { vm_compute in Hfail. injection Hfail as <- <-. vm_compute. reflexivity. }
  split; [exists e, stK; split; [reflexivity | exact Hok] |].
  exact (proj1 (main_loop_rounds retry_world self 2 (initial ∅))
           1 e stK None (final_state r) (le_n 2) Hfail Hok).
Defined.

(** ** The error renderer *)

(** C2 does not hold of the code: a diagnostic the parser does not
    recognise, here the message of an attempt without code, makes the
    rendering raise [KeyError] on the first field it reads. *)
Theorem construct_error_message_raises st :
  parse_coq_error no_code_message = ∅
  /\ construct_error_message (Some no_code_message) st
     = Raise (KeyError "line") (add_stdout (PrintDict "errordict:" ∅) st).
Proof.
  assert (H : parse_coq_error no_code_message = ∅) by (vm_compute; reflexivity).
  split; [exact H | now apply construct_error_message_unparsed].
Qed.

(** ** The code extractor *)

(** C3 does not hold of the code: group 1 of the fence pattern holds no
    fence, so neither substitution applies and the language tag stays as
    the first line of the code. *)
Theorem extract_code_segment_keeps_tag :
  extract_code_segment tagged_answer
  = "coq" +:+ NL +:+ "Lemma t: 1=1. Proof. reflexivity. Qed."
  /\ files (final_state (main accepting_world "prove 1=1" default_model "temp.v"
                           (initial ∅))) !! "temp.v"
     = Some ("coq" +:+ NL +:+ "Lemma t: 1=1. Proof. reflexivity. Qed.").
Proof. split; vm_compute; reflexivity. Qed.

(** The same for every tag and code: what is between the fences is
    stripped and returned, tag line included. *)
Lemma extract_code_segment_tagged (tag code : string) :
  Str.occurs "```" ((tag +:+ NL +:+ code +:+ NL) +:+ "``") = false ->
  extract_code_segment ("```" +:+ tag +:+ NL +:+ code +:+ NL +:+ "```")
  = Str.strip (tag +:+ NL +:+ code +:+ NL).
Proof.
  intros H.
  pose proof (extract_code_segment_first "" (tag +:+ NL +:+ code +:+ NL) "" eq_refl H) as E.
  rewrite <- E. f_equal. cbn [String.append].
  now rewrite !app_assoc.
Qed.

(** C8: a text with no fenced region has the empty string as its code
    segment, and an attempt whose answer is such a text is a failed
    extraction: it returns failure with the message for a missing code
    segment instead of handing empty code to the checker. *)
Theorem no_region_no_code (text : string) :
  (forall pre g post, text <> pre +:+ "```" +:+ g +:+ "```" +:+ post) ->
  extract_code_segment text = ""
  /\ forall W self first errors st st1,
       generate_coq_code W self first errors st = Ok text st1 ->
       compile_and_check W self first errors st
       = Ok (false, Some no_code_message) (add_stdout no_code_notice st1)
       /\ coqcs (add_stdout no_code_notice st1) = coqcs st.
Proof.
  intros H. pose proof (extract_code_segment_none text H) as Hex.
  split; [exact Hex |]. intros W self first errors st st1 Hgen.
  destruct (compile_and_check_no_code W self _ _ _ _ _ Hgen Hex) as [Hcc (_ & Hc & _)].
  now split.
Qed.

Lemma no_region_no_code_witness :
  let text := "I cannot write this proof." in
  let self := init "prove 1=1" main_metaprompt "temp.v" default_model in
  let r := generate_coq_code mute_world self true None (initial ∅) in
  (forall pre g post, text <> pre +:+ "```" +:+ g +:+ "```" +:+ post)
  /\ extract_code_segment text = ""
  /\ compile_and_check mute_world self true None (initial ∅)
     = Ok (false, Some no_code_message) (add_stdout no_code_notice (final_state r)).
Proof.
  intros text self r.
  assert (H : forall pre g post, text <> pre +:+ "```" +:+ g +:+ "```" +:+ post)
    by (apply no_fence_no_region; vm_compute; reflexivity).
  split; [exact H |].
  destruct (no_region_no_code text H) as [Hex Hcc].
  split; [exact Hex |].
  exact (proj1 (Hcc mute_world self true None (initial ∅) (final_state r) eq_refl)).
Defined.

(** C9: an attempt whose code extraction returns the empty string
    returns before the target file is written: the files after the
    attempt are the files before it. *)
Theorem no_code_no_write W self first errors st coq_code st1 :
  generate_coq_code W self first errors st = Ok coq_code st1 ->
  extract_code_segment coq_code = "" ->
  exists st2,
    compile_and_check W self first errors st = Ok (false, Some no_code_message) st2
    /\ files st2 = files st
    /\ files st2 !! filename self = files st !! filename self.
Proof.
  intros Hgen Hex.
  destruct (compile_and_check_no_code W self _ _ _ _ _ Hgen Hex) as [Hcc (Hf & _)].
  eexists. split; [exact Hcc |]. split; [exact Hf | now rewrite Hf].
Qed.

Lemma no_code_no_write_witness :
  let self := init "prove 1=1" main_metaprompt "temp.v" default_model in
  let st := initial {[ "temp.v" := "Lemma old: True. Proof. exact I. Qed." ]} in
  let r := generate_coq_code mute_world self false None st in
  r = Ok "I cannot write this proof." (final_state r)
  /\ extract_code_segment "I cannot write this proof." = ""
  /\ exists st2,
       compile_and_check mute_world self false None st
       = Ok (false, Some no_code_message) st2
       /\ files st2 = files st
       /\ files st2 !! "temp.v" = files st !! "temp.v".
Proof.
  intros self st r.
  assert (H1 : r = Ok "I cannot write this proof." (final_state r)) by reflexivity.
  assert (H2 : extract_code_segment "I cannot write this proof." = "")
    by (vm_compute; reflexivity).
  split; [exact H1 |]. split; [exact H2 |].
  exact (no_code_no_write mute_world self false None st _ _ H1 H2).
Defined.

(** C10: when the first fenced region of an answer holds only
    whitespace, the code segment is the empty string, as it is for a text
    without any fence, and the attempt is a failed extraction although
    the fence pattern does match. *)
Theorem blank_region_no_code (pre ws post : string) :
  Str.occurs "```" (pre +:+ "``") = false ->
  Str.all Str.isspace ws = true ->
  let text := pre +:+ "```" +:+ ws +:+ "```" +:+ post in
  extract_code_segment text = ""
  /\ extract_code_segment text = extract_code_segment pre
  /\ is_Some (Re.search code_pattern text)
  /\ forall W self first errors st st1,
       generate_coq_code W self first errors st = Ok text st1 ->
       compile_and_check W self first errors st
       = Ok (false, Some no_code_message) (add_stdout no_code_notice st1).
Proof.
  intros Hpre Hws text.
  pose proof (blank_no_fence ws Hws) as Hg.
  assert (Hex : extract_code_segment text = "").
  { subst text. rewrite extract_code_segment_first by assumption.
    now apply strip_all_space. }
  split; [exact Hex |]. split; [| split].
  - rewrite Hex. symmetry. apply extract_code_segment_none.
    apply no_fence_no_region. now apply occurs_app_l in Hpre.
  - subst text. rewrite search_code_pattern by assumption. eauto.
  - intros W self first errors st st1 Hgen.
    exact (proj1 (compile_and_check_no_code W self _ _ _ _ _ Hgen Hex)).
Qed.

Lemma blank_region_no_code_witness :
  let text := "Here you go: " +:+ "```" +:+ (" " +:+ NL) +:+ "```" +:+ " done" in
  Str.occurs "```" ("Here you go: " +:+ "``") = false
  /\ Str.all Str.isspace (" " +:+ NL) = true
  /\ extract_code_segment text = ""
  /\ is_Some (Re.search code_pattern text).
Proof.
  intros text.
  assert (H1 : Str.occurs "```" ("Here you go: " +:+ "``") = false)
    by (vm_compute; reflexivity).
  assert (H2 : Str.all Str.isspace (" " +:+ NL) = true) by (vm_compute; reflexivity).
  destruct (blank_region_no_code "Here you go: " (" " +:+ NL) " done" H1 H2)
    as (Hex & _ & Hs & _).
  repeat split; assumption.
Defined.

(** ** The error parser *)

(** The example of the specification. *)
Example parse_coq_error_syntax_error :
  parse_coq_error syntax_error
  = {[ "line" := "12"; "characters" := "4-10"; "message" := "Syntax error." ]}.
Proof. now apply parse_coq_error_diagnostic. Qed.

(** C5, as amended: a diagnostic [File "<name>", line <N>, characters
    <A>-<B>:], newline, [Error: <message>] parses into exactly the keys
    [line], [characters] and [message], bound to [<N>], [<A>-<B>] and the
    first line of [<message>] (its part before the first newline); a text
    that holds no such diagnostic parses into the empty mapping. *)
Theorem parse_coq_error_spec :
  (forall name line first last message,
     Str.all (Str.other_than Str.dq) name = true ->
     is_number line = true -> is_number first = true -> is_number last = true ->
     parse_coq_error (diagnostic name line first last message)
     = {[ "line" := line; "characters" := first +:+ "-" +:+ last;
          "message" := Str.first_line message ]})
  /\ (forall text,
        (forall pre name line first last message post,
           Str.all (Str.other_than Str.dq) name = true ->
           is_number line = true -> is_number first = true -> is_number last = true ->
           text <> pre +:+ diagnostic name line first last message +:+ post) ->
        parse_coq_error text = ∅).
Proof.
  split.
  - apply parse_coq_error_diagnostic.
  - apply parse_coq_error_none.
Qed.

Lemma parse_coq_error_spec_witness :
  let message := "Syntax error." +:+ NL +:+ "See the manual." in
  parse_coq_error (diagnostic "x.v" "12" "4" "10" message)
  = {[ "line" := "12"; "characters" := "4-10"; "message" := "Syntax error." ]}
  /\ (forall pre name line first last message post,
        "" <> pre +:+ diagnostic name line first last message +:+ post)
  /\ parse_coq_error "" = ∅.
Proof.
  intros message.
  assert (H : forall pre name line first last message post,
            "" <> pre +:+ diagnostic name line first last message +:+ post)
    by (intros [|c pre] name line first last msg post; discriminate).
  split; [| split; [exact H |]].
  - exact (proj1 parse_coq_error_spec "x.v" "12" "4" "10" message
             eq_refl eq_refl eq_refl eq_refl).
  - apply (proj2 parse_coq_error_spec ""). intros; apply H.
Defined.

(** C5, as stated, fails: of a message of two lines only the first is
    bound to [message]. *)
Lemma parse_coq_error_drops_lines :
  let message := "Syntax error." +:+ NL +:+ "See the manual." in
  parse_coq_error (diagnostic "x.v" "12" "4" "10" message) !! "message"
  = Some "Syntax error."
  /\ parse_coq_error (diagnostic "x.v" "12" "4" "10" message)
     <> {[ "line" := "12"; "characters" := "4-10"; "message" := message ]}.
Proof.
  intros message.
  assert (H : parse_coq_error (diagnostic "x.v" "12" "4" "10" message) !! "message"
              = Some "Syntax error.") by (vm_compute; reflexivity).
  split; [exact H |]. intros E. rewrite E in H. vm_compute in H. discriminate H.
Qed.

(** ** The prompt builder *)

(** C6, as amended: on a first attempt with no prior error the prompt is
    the preamble, a newline, the task description and a newline. *)
Theorem construct_ollama_prompt_first self errors st :
  truthy errors = false ->
  construct_ollama_prompt self true errors st
  = Ok (metaprompt self +:+ NL +:+ task_prompt self +:+ NL) st.
Proof. intros H. unfold construct_ollama_prompt. now rewrite H. Qed.

Lemma construct_ollama_prompt_first_witness :
  let self := init "prove 1=1" main_metaprompt "temp.v" default_model in
  truthy None = false
  /\ construct_ollama_prompt self true None (initial ∅)
     = Ok (main_metaprompt +:+ NL +:+ "prove 1=1" +:+ NL) (initial ∅).
Proof.
  intros self. split; [reflexivity |].
  exact (construct_ollama_prompt_first self None (initial ∅) eq_refl).
Defined.

(** C6, as stated, fails: the prompt is not the preamble followed at
    once by the task description. *)
Lemma construct_ollama_prompt_first_newlines :
  let self := init "prove 1=1" "Write a Coq proof." "temp.v" default_model in
  construct_ollama_prompt self true None (initial ∅)
  = Ok ("Write a Coq proof." +:+ NL +:+ "prove 1=1" +:+ NL) (initial ∅)
  /\ construct_ollama_prompt self true None (initial ∅)
     <> Ok (metaprompt self +:+ task_prompt self) (initial ∅).
Proof. split; [reflexivity | discriminate]. Qed.

(** ** The checker adapter *)

(** C7: when the checker exits non-zero, [run_coqc] writes the text of
    its standard error to [coq_error.log], replacing what the file held,
    and returns that text with the success flag false. *)
Theorem run_coqc_failure W task meta fname mdl st stderr files' :
  let self := init task meta fname mdl in
  coqc W (coqcs st) fname (files st) = (ExitNonZero stderr, files') ->
  exists st',
    run_coqc W self st = Ok (false, stderr) st'
    /\ files st' = <["coq_error.log" := stderr]> files'
    /\ files st' !! "coq_error.log" = Some stderr.
Proof.
  intros self H. unfold run_coqc, subprocess_run, bind. cbn [filename self init].
  rewrite H. eexists. split; [reflexivity |]. cbn.
  split; [reflexivity | apply lookup_insert_eq].
Qed.

Lemma run_coqc_failure_witness :
  let self := init "prove 1=1" main_metaprompt "temp.v" default_model in
  let st := initial {[ "coq_error.log" := "an older diagnostic" ]} in
  coqc retry_world (coqcs st) "temp.v" (files st) = (ExitNonZero syntax_error, files st)
  /\ exists st',
       run_coqc retry_world self st = Ok (false, syntax_error) st'
       /\ files st' = <["coq_error.log" := syntax_error]> (files st)
       /\ files st' !! "coq_error.log" = Some syntax_error.
Proof.
  intros self st. split; [reflexivity |].
  exact (run_coqc_failure retry_world "prove 1=1" main_metaprompt "temp.v"
           default_model st syntax_error (files st) eq_refl).
Defined.

(** The same seen from the attempt: its message is the text of the
    standard error as it is read back from the log. *)
Lemma compile_and_check_failure W task meta fname mdl first errors st coq_code st1
    stderr files' :
  let self := init task meta fname mdl in
  generate_coq_code W self first errors st = Ok coq_code st1 ->
  extract_code_segment coq_code <> "" ->
  coqc W (coqcs st1) fname (<[fname := extract_code_segment coq_code]> (files st1))
  = (ExitNonZero stderr, files') ->
  exists st',
    compile_and_check W self first errors st
    = Ok (false, Some (Str.universal_newlines stderr)) st'
    /\ files st' !! "coq_error.log" = Some stderr.
Proof.
  intros self Hgen Hne Hrun. unfold compile_and_check, bind. rewrite Hgen.
  apply String.eqb_neq in Hne. rewrite Hne.
  unfold write_to_file, write_file, run_coqc, subprocess_run, bind.
  cbn [filename self init files coqcs set_files]. rewrite Hrun.
  unfold parse_errors, ret. cbn. rewrite lookup_insert_eq.
  eexists. split; [reflexivity |]. cbn. apply lookup_insert_eq.
Qed.

(** * Further properties *)

(** ** The code extractor *)

Lemma extract_code_segment_no_fence (text : string) :
  Str.occurs "```" (extract_code_segment text) = false.
Proof.
  rewrite extract_code_segment_eq.
  destruct (Re.search code_pattern text) as [m|] eqn:E; [| reflexivity].
  apply search_code_pattern_sound in E as (_ & g & _ & _ & Hg & ->).
  apply occurs_strip. now apply occurs_app_l in Hg.
Qed.

(** X1: whatever the text, the code segment has no whitespace at either
    end and holds no fence. *)
Theorem extract_code_segment_clean (text : string) :
  Str.strip (extract_code_segment text) = extract_code_segment text
  /\ Str.occurs "```" (extract_code_segment text) = false.
Proof.
  split; [| apply extract_code_segment_no_fence].
  rewrite extract_code_segment_eq.
  destruct (Re.search code_pattern text) as [m|]; [| reflexivity].
  destruct (Re.group m 1) as [g|]; [apply strip_idem | reflexivity].
Qed.

(** X2: a code segment holds no code segment: extracting from the result
    of an extraction gives the empty string. *)
Theorem extract_code_segment_twice (text : string) :
  extract_code_segment (extract_code_segment text) = "".
Proof.
  apply extract_code_segment_none, no_fence_no_region,
    extract_code_segment_no_fence.
Qed.

(** X3: the code segment is what the first fenced region holds, stripped,
    with its language-tag line if it has one; what follows the region,
    further regions included, has no influence. *)
Theorem extract_code_segment_first_region (pre g post post' : string) :
  Str.occurs "```" (pre +:+ "``") = false ->
  Str.occurs "```" (g +:+ "``") = false ->
  extract_code_segment (pre +:+ "```" +:+ g +:+ "```" +:+ post) = Str.strip g
  /\ extract_code_segment (pre +:+ "```" +:+ g +:+ "```" +:+ post')
     = extract_code_segment (pre +:+ "```" +:+ g +:+ "```" +:+ post).
Proof.
  intros Hpre Hg.
  pose proof (extract_code_segment_first pre g post Hpre Hg) as H.
  pose proof (extract_code_segment_first pre g post' Hpre Hg) as H'.
  split; [exact H | now rewrite H, H'].
Qed.

Lemma extract_code_segment_first_region_witness :
  let g := "python" +:+ NL +:+ "print(1)" +:+ NL in
  let post := " or " +:+ "```" +:+ "print(2)" +:+ "```" in
  Str.occurs "```" ("Try: " +:+ "``") = false
  /\ Str.occurs "```" (g +:+ "``") = false
  /\ extract_code_segment ("Try: " +:+ "```" +:+ g +:+ "```" +:+ post)
     = "python" +:+ NL +:+ "print(1)".
Proof.
  intros g post.
  assert (H1 : Str.occurs "```" ("Try: " +:+ "``") = false) by (vm_compute; reflexivity).
  assert (H2 : Str.occurs "```" (g +:+ "``") = false) by (vm_compute; reflexivity).
  split; [exact H1 |]. split; [exact H2 |].
  exact (proj1 (extract_code_segment_first_region "Try: " g post "" H1 H2)).
Defined.

(** ** The error parser and the rendering of errors *)

Lemma no_literal_inside (w a1 a2 y1 y2 : string) :
  Str.occurs w ((a1 +:+ a2) +:+ y1) = false -> a2 <> "" ->
  String.length w <= S (String.length y1) ->
  String.prefix w (a2 +:+ y1 +:+ y2) = false.
Proof.
  intros H Hne Hlen. rewrite app_assoc in H.
  apply occurs_app_r, occurs_here in H.
  rewrite <- app_assoc, prefix_app_long; [exact H |].
  rewrite length_app. destruct a2; [easy | simpl; lia].
Qed.

Lemma first_line_app (message tail : string) :
  Str.all Str.dot message = true ->
  Str.first_line (message +:+ NL +:+ tail) = message
  /\ Str.first_line message = message.
Proof.
  induction message as [|c message IH]; intros H.
  - split; reflexivity.
  - cbn [Str.all] in H. apply andb_true_iff in H as [Hc Hm].
    unfold Str.dot in Hc. apply negb_true_iff in Hc.
    change (String c message +:+ NL +:+ tail)
      with (String c (message +:+ NL +:+ tail)).
    cbn [Str.first_line]. rewrite Hc.
    destruct (IH Hm) as [E1 E2]. rewrite E1, E2. split; reflexivity.
Qed.

(** The parser finds a diagnostic behind a text in which no file
    reference starts. *)
Lemma parse_coq_error_located pre name line first last message :
  Str.occurs "File " (pre +:+ "File") = false ->
  Str.all (Str.other_than Str.dq) name = true ->
  is_number line = true -> is_number first = true -> is_number last = true ->
  parse_coq_error (pre +:+ diagnostic name line first last message)
  = parsed line (first +:+ "-" +:+ last) (Str.first_line message).
Proof.
  intros Hpre Hname (d1 & n1 & -> & Hd1 & Hn1)%is_number_inv
               (d2 & n2 & -> & Hd2 & Hn2)%is_number_inv
               (d3 & n3 & -> & Hd3 & Hn3)%is_number_inv.
  destruct (first_line_split message) as (rest & Hsplit & Hrest & Hfl).
  set (fl := Str.first_line message) in *. clearbody fl. subst message.
  unfold parse_coq_error, Re.search.
  rewrite search_from_skip.
  2:{ intros a1 a2 j -> Hne. rewrite error_pattern_eq.
      apply exec_lit_no_prefix.
      change (diagnostic name (String d1 n1) (String d2 n2) (String d3 n3) (fl +:+ rest))
        with ("File" +:+ Str.drop 4
                (diagnostic name (String d1 n1) (String d2 n2) (String d3 n3) (fl +:+ rest))).
      apply (no_literal_inside _ a1); [exact Hpre | exact Hne | simpl; lia]. }
  rewrite (search_from_here _ _ _ _ _ _
             (exec_error_pattern name d1 n1 d2 n2 d3 n3 fl rest (0 + String.length pre)
                Hname Hd1 Hn1 Hd2 Hn2 Hd3 Hn3 Hfl Hrest)).
  unfold error_groups, Re.groupdict, Re.group. cbn [Re.m_marks Re.m_string].
  change (2 * 1 - 2) with 0. change (2 * 1 - 1) with 1.
  change (2 * 2 - 2) with 2. change (2 * 2 - 1) with 3.
  change (2 * 3 - 2) with 4. change (2 * 3 - 1) with 5.
  set (text := pre +:+ diagnostic _ _ _ _ _).
  simplify_map_eq.
  rewrite (slice_at text
             (pre +:+ "File " +:+ DQ +:+ name +:+ DQ +:+ ", line ")
             (String d1 n1)
             (", characters " +:+ String d2 n2 +:+ "-" +:+ String d3 n3
                +:+ ":" +:+ NL +:+ "Error: " +:+ fl +:+ rest));
    [| subst text; unfold diagnostic; now rewrite !app_assoc
     | rewrite !length_app; simpl; lia | rewrite !length_app; simpl; lia ].
  rewrite (slice_at text
             (pre +:+ "File " +:+ DQ +:+ name +:+ DQ +:+ ", line " +:+ String d1 n1
                +:+ ", characters ")
             (String d2 n2 +:+ "-" +:+ String d3 n3)
             (":" +:+ NL +:+ "Error: " +:+ fl +:+ rest));
    [| subst text; unfold diagnostic; now rewrite !app_assoc
     | rewrite !length_app; simpl; lia | rewrite !length_app; simpl; lia ].
  rewrite (slice_at text
             (pre +:+ "File " +:+ DQ +:+ name +:+ DQ +:+ ", line " +:+ String d1 n1
                +:+ ", characters " +:+ String d2 n2 +:+ "-" +:+ String d3 n3
                +:+ ":" +:+ NL +:+ "Error: ")
             fl rest);
    [| subst text; unfold diagnostic; now rewrite !app_assoc
     | rewrite !length_app; simpl; lia | rewrite !length_app; simpl; lia ].
  reflexivity.
Qed.

(** X4: the mapping the parser returns is never partial: it has no key
    at all, or exactly the keys [line], [characters] and [message]. *)
Theorem parse_coq_error_domain (text : string) :
  dom (parse_coq_error text) = (∅ : gset string)
  \/ dom (parse_coq_error text)
     = ({[ "line"; "characters"; "message" ]} : gset string).
Proof.
  destruct (parse_coq_error_keys text) as [H | (l & c & m & H)]; rewrite H.
  - left. apply dom_empty_L.
  - right. rewrite !dom_insert_L, dom_singleton_L. set_solver.
Qed.

(** X5: the parser reads the first diagnostic of a text: what stands
    before it, when no file reference starts there, and what follows the
    first line of its message, further diagnostics included, have no
    influence. *)
Theorem parse_coq_error_first_diagnostic pre name line first last message tail :
  Str.occurs "File " (pre +:+ "File") = false ->
  Str.all (Str.other_than Str.dq) name = true ->
  is_number line = true -> is_number first = true -> is_number last = true ->
  Str.all Str.dot message = true ->
  parse_coq_error (pre +:+ diagnostic name line first last (message +:+ NL +:+ tail))
  = parsed line (first +:+ "-" +:+ last) message
  /\ parse_coq_error (pre +:+ diagnostic name line first last message)
     = parsed line (first +:+ "-" +:+ last) message.
Proof.
  intros Hpre Hname Hl Hf Ha Hm.
  destruct (first_line_app message tail Hm) as [E1 E2].
  rewrite !parse_coq_error_located by assumption.
  now rewrite E1, E2.
Qed.

Lemma parse_coq_error_first_diagnostic_witness :
  let pre := "coqc said:" +:+ NL in
  let tail := diagnostic "x.v" "20" "0" "3" "Another error." in
  Str.occurs "File " (pre +:+ "File") = false
  /\ Str.all Str.dot "Syntax error." = true
  /\ parse_coq_error (pre +:+ diagnostic "x.v" "12" "4" "10"
                                 ("Syntax error." +:+ NL +:+ tail))
     = parsed "12" "4-10" "Syntax error.".
Proof.
  intros pre tail.
  assert (H1 : Str.occurs "File " (pre +:+ "File") = false) by (vm_compute; reflexivity).
  assert (H2 : Str.all Str.dot "Syntax error." = true) by (vm_compute; reflexivity).
  split; [exact H1 |]. split; [exact H2 |].
  exact (proj1 (parse_coq_error_first_diagnostic pre "x.v" "12" "4" "10"
                  "Syntax error." tail H1 eq_refl eq_refl eq_refl eq_refl H2)).
Defined.

Lemma construct_error_message_parsed e l c m st :
  parse_coq_error e = parsed l c m ->
  construct_error_message (Some e) st
  = Ok (error_sentence l c m) (add_stdout (PrintDict "errordict:" (parsed l c m)) st).
Proof.
  intros H. unfold construct_error_message, bind, print, getitem. rewrite H.
  unfold parsed. simplify_map_eq. reflexivity.
Qed.

(** X6: for an error that is a string, [construct_error_message] first
    prints the parsed mapping and then either raises [KeyError] for the
    key [line], exactly when the mapping is empty, or returns the sentence
    built of the three fields; it raises for no other key. *)
Theorem construct_error_message_cases (e : string) (st : State) :
  let d := parse_coq_error e in
  let st' := add_stdout (PrintDict "errordict:" d) st in
  (d = ∅ /\ construct_error_message (Some e) st = Raise (KeyError "line") st')
  \/ (exists l c m,
        d = parsed l c m
        /\ construct_error_message (Some e) st = Ok (error_sentence l c m) st').
Proof.
  intros d st'. subst d st'.
  destruct (parse_coq_error_keys e) as [H | (l & c & m & H)].
  - left. rewrite H. split; [reflexivity |].
    now apply construct_error_message_unparsed.
  - right. exists l, c, m. fold (parsed l c m) in H. rewrite H.
    split; [reflexivity |]. now apply construct_error_message_parsed.
Qed.

(** X7: a diagnostic is rendered as the sentence that names its line,
    its character range and the first line of its message; an error that
    is no string ([None]) is rendered as the empty string. *)
Theorem construct_error_message_renders name line first last message st :
  Str.all (Str.other_than Str.dq) name = true ->
  is_number line = true -> is_number first = true -> is_number last = true ->
  construct_error_message (Some (diagnostic name line first last message)) st
  = Ok (error_sentence line (first +:+ "-" +:+ last) (Str.first_line message))
       (add_stdout (PrintDict "errordict:"
          (parsed line (first +:+ "-" +:+ last) (Str.first_line message))) st)
  /\ construct_error_message None st
     = Ok "" (add_stdout (Print ["errors were not string, returning empty"]) st).
Proof.
  intros Hname Hl Hf Ha. split; [| reflexivity].
  apply construct_error_message_parsed.
  now apply parse_coq_error_diagnostic.
Qed.

Lemma construct_error_message_renders_witness :
  construct_error_message (Some syntax_error) (initial ∅)
  = Ok ("We had an error on line 12 at characters 4-10. The error type was "
        +:+ DQ +:+ "Syntax error." +:+ DQ)
       (add_stdout (PrintDict "errordict:" (parsed "12" "4-10" "Syntax error."))
          (initial ∅)).
Proof.
  exact (proj1 (construct_error_message_renders "x.v" "12" "4" "10" "Syntax error."
                  (initial ∅) eq_refl eq_refl eq_refl eq_refl)).
Defined.

(** ** The prompt builder *)

Lemma diagnostic_truthy name line first last message :
  truthy (Some (diagnostic name line first last message)) = true.
Proof. reflexivity. Qed.

(** X8: with a diagnostic as prior error the prompt is its head (the
    preamble and the task on a first attempt, the reminder of the task
    without the preamble afterwards), a newline, the rendered error and a
    newline. *)
Theorem construct_ollama_prompt_with_diagnostic self first name line a b message st :
  Str.all (Str.other_than Str.dq) name = true ->
  is_number line = true -> is_number a = true -> is_number b = true ->
  construct_ollama_prompt self first (Some (diagnostic name line a b message)) st
  = Ok (prompt_head self first +:+ NL
        +:+ error_sentence line (a +:+ "-" +:+ b) (Str.first_line message) +:+ NL)
       (add_stdout (PrintDict "errordict:"
          (parsed line (a +:+ "-" +:+ b) (Str.first_line message))) st).
Proof.
  intros Hname Hl Ha Hb.
  pose proof (parse_coq_error_diagnostic name line a b message Hname Hl Ha Hb) as Hp.
  unfold construct_ollama_prompt, prompt_head. rewrite diagnostic_truthy.
  destruct first; unfold bind, ret;
    rewrite (construct_error_message_parsed _ _ _ _ _ Hp);
    [now rewrite !app_assoc | reflexivity].
Qed.

Lemma construct_ollama_prompt_with_diagnostic_witness :
  let self := init "prove 1=1" main_metaprompt "temp.v" default_model in
  construct_ollama_prompt self false (Some syntax_error) (initial ∅)
  = Ok ("Reminder that our task is to: prove 1=1" +:+ NL
        +:+ "We had an error on line 12 at characters 4-10. The error type was "
        +:+ DQ +:+ "Syntax error." +:+ DQ +:+ NL)
       (add_stdout (PrintDict "errordict:" (parsed "12" "4-10" "Syntax error."))
          (initial ∅)).
Proof.
  intros self.
  exact (construct_ollama_prompt_with_diagnostic self false "x.v" "12" "4" "10"
           "Syntax error." (initial ∅) eq_refl eq_refl eq_refl eq_refl).
Defined.

(** ** One attempt *)

Section AttemptFacts.

Variable W : World.
Variable self : CoqInterface.

Lemma construct_ollama_prompt_chats first errors st :
  chats (final_state (construct_ollama_prompt self first errors st)) = chats st.
Proof.
  assert (H : chats (final_state (construct_error_message errors st)) = chats st).
  { destruct errors as [e|]; unfold construct_error_message, bind, print, ret, getitem;
      [| reflexivity].
    destruct (parse_coq_error e !! "line"); [| reflexivity].
    destruct (parse_coq_error e !! "characters"); [| reflexivity].
    now destruct (parse_coq_error e !! "message"). }
  unfold construct_ollama_prompt, bind, ret.
  destruct first, (truthy errors); try reflexivity;
    now destruct (construct_error_message errors st).
Qed.

(** A call of [generate_coq_code] that returns has sent one request, a
    call that raises has sent none. *)
Lemma generate_coq_code_chats first errors st :
  match generate_coq_code W self first errors st with
  | Ok _ st1 => chats st1 = S (chats st)
  | Raise _ st1 => chats st1 = chats st
  end.
Proof.
  pose proof (construct_ollama_prompt_chats first errors st) as H.
  unfold generate_coq_code, bind, print, chat.
  destruct (construct_ollama_prompt self first errors st); simpl in *; now rewrite H.
Qed.

(** The state after an attempt whose code the checker accepts. *)
Lemma compile_and_check_accepted first errors st coq_code st1 files' :
  generate_coq_code W self first errors st = Ok coq_code st1 ->
  extract_code_segment coq_code <> "" ->
  coqc W (coqcs st1) (filename self)
    (<[filename self := extract_code_segment coq_code]> (files st1))
  = (ExitZero, files') ->
  compile_and_check W self first errors st
  = Ok (true, None)
      (add_stdout (Print ["Coq code compiled successfully."])
         (set_files (fun _ => files')
            (incr_coqcs
               (set_files (insert (filename self) (extract_code_segment coq_code)) st1)))).
Proof.
  intros Hgen Hne Hrun. unfold compile_and_check, bind. rewrite Hgen.
  apply String.eqb_neq in Hne. rewrite Hne.
  unfold write_to_file, write_file, run_coqc, subprocess_run, bind.
  cbn [files coqcs set_files]. now rewrite Hrun.
Qed.

(** The state after an attempt whose code the checker rejects. *)
Lemma compile_and_check_rejected first errors st coq_code st1 stderr files' :
  generate_coq_code W self first errors st = Ok coq_code st1 ->
  extract_code_segment coq_code <> "" ->
  coqc W (coqcs st1) (filename self)
    (<[filename self := extract_code_segment coq_code]> (files st1))
  = (ExitNonZero stderr, files') ->
  compile_and_check W self first errors st
  = Ok (false, Some (Str.universal_newlines stderr))
      (add_stdout
         (Print ["=============" +:+ NL +:+ "Compilation errors:" +:+ NL;
                 Str.universal_newlines stderr])
         (set_files (insert (error_log self) stderr)
            (set_files (fun _ => files')
               (incr_coqcs
                  (set_files (insert (filename self) (extract_code_segment coq_code))
                     st1))))).
Proof.
  intros Hgen Hne Hrun. unfold compile_and_check, bind. rewrite Hgen.
  apply String.eqb_neq in Hne. rewrite Hne.
  unfold write_to_file, write_file, run_coqc, subprocess_run, bind.
  cbn [files coqcs set_files]. rewrite Hrun.
  unfold parse_errors, ret, bind, print. cbn. now rewrite lookup_insert_eq.
Qed.

(** An attempt sends at most one request and runs the checker at most
    once, and only after a request. *)
Lemma compile_and_check_counters first errors st :
  let st' := final_state (compile_and_check W self first errors st) in
  chats st <= chats st' <= S (chats st)
  /\ coqcs st <= coqcs st'
  /\ coqcs st' + chats st <= chats st' + coqcs st.
Proof.
  pose proof (generate_coq_code_frame W self first errors st) as (_ & Hc & _).
  pose proof (generate_coq_code_chats first errors st) as Hch.
  unfold compile_and_check, bind.
  destruct (generate_coq_code W self first errors st) as [code st1|e st1];
    simpl in Hc; [| simpl; lia].
  destruct (String.eqb (extract_code_segment code) ""); [simpl; lia |].
  unfold write_to_file, write_file, run_coqc, subprocess_run, bind, ret, print.
  cbn [files coqcs set_files].
  destruct (coqc W _ _ _) as [[|stderr] fs']; cbn; [lia |].
  unfold parse_errors. cbn. destruct (_ !! _); cbn; lia.
Qed.

Lemma main_loop_counters : forall n i status errors st,
  let st' := final_state (main_loop W self n i status errors st) in
  chats st <= chats st' <= chats st + n
  /\ coqcs st <= coqcs st'
  /\ coqcs st' + chats st <= chats st' + coqcs st.
Proof.
  induction n as [|n IH]; intros i status errors st; [simpl; lia |].
  pose proof (compile_and_check_counters (i =? 0) errors (incr_attempts st)) as Hc.
  destruct (compile_and_check W self (i =? 0) errors (incr_attempts st))
    as [[[|] e1] st1|e1 st1] eqn:E.
  - rewrite (main_loop_succeeded _ _ _ _ _ _ _ _ _ E). simpl in *. lia.
  - rewrite (main_loop_failed _ _ _ _ _ _ _ _ _ E).
    specialize (IH (S i) false e1 (add_stdout trying_again st1)).
    simpl in *. lia.
  - rewrite (main_loop_raised _ _ _ _ _ _ _ _ _ E). simpl in *. lia.
Qed.

(** A failed round with a message the parser does not read makes the
    next round raise while it builds its prompt. *)
Lemma main_loop_unparsed n i status errors st e st1 :
  compile_and_check W self (i =? 0) errors (incr_attempts st) = Ok (false, Some e) st1 ->
  e <> "" -> parse_coq_error e = ∅ ->
  main_loop W self (S (S n)) i status errors st
  = Raise (KeyError "line")
      (add_stdout (PrintDict "errordict:" ∅)
         (incr_attempts (add_stdout trying_again st1))).
Proof.
  intros Hcc Hne Hp. rewrite (main_loop_failed _ _ _ _ _ _ _ _ _ Hcc).
  apply main_loop_raised.
  unfold compile_and_check, generate_coq_code, bind, construct_ollama_prompt.
  change (S i =? 0) with false. cbn [truthy].
  destruct e as [|c e]; [easy |]. cbn [Str.nonempty].
  unfold bind. now rewrite (construct_error_message_unparsed _ _ Hp).
Qed.

End AttemptFacts.

(** X9: when the checker rejects the code without writing anything to
    its standard error, the attempt fails with the empty string as its
    message, and a later attempt handed that message sees no error: its
    prompt is the task description and a newline, and nothing is raised. *)
Theorem silent_rejection_is_no_error W self first errors st coq_code st1 files' :
  generate_coq_code W self first errors st = Ok coq_code st1 ->
  extract_code_segment coq_code <> "" ->
  coqc W (coqcs st1) (filename self)
    (<[filename self := extract_code_segment coq_code]> (files st1))
  = (ExitNonZero "", files') ->
  (exists st', compile_and_check W self first errors st = Ok (false, Some "") st')
  /\ forall st2,
       generate_coq_code W self false (Some "") st2
       = Ok (ollama_chat W (chats st2) (model self) (task_prompt self +:+ NL))
            (incr_chats
               (add_stdout
                  (Print ["Prompt:" +:+ NL +:+ "==============" +:+ NL;
                          task_prompt self +:+ NL]) st2)).
Proof.
  intros Hgen Hne Hrun. split; [| reflexivity].
  eexists. exact (compile_and_check_rejected W self _ _ _ _ _ _ _ Hgen Hne Hrun).
Qed.

Lemma silent_rejection_is_no_error_witness :
  let self := init "prove 1=1" main_metaprompt "temp.v" default_model in
  let r := generate_coq_code silent_world self true None (initial ∅) in
  r = Ok tagged_answer (final_state r)
  /\ extract_code_segment tagged_answer <> ""
  /\ exists st', compile_and_check silent_world self true None (initial ∅)
                 = Ok (false, Some "") st'.
Proof.
  intros self r.
  assert (H1 : r = Ok tagged_answer (final_state r)) by reflexivity.
  assert (H2 : extract_code_segment tagged_answer <> "")
    by (vm_compute; discriminate).
  split; [exact H1 |]. split; [exact H2 |].
  exact (proj1 (silent_rejection_is_no_error silent_world self true None (initial ∅)
                  tagged_answer (final_state r) _ H1 H2 eq_refl)).
Defined.

(** X10: an attempt whose code the checker accepts returns success with
    no message, after one request and one run of the checker on the files
    in which the target holds the extracted code; it writes nothing after
    that run, so an error log left by an earlier attempt stays as it is. *)
Theorem accepted_attempt W self first errors st coq_code st1 files' :
  generate_coq_code W self first errors st = Ok coq_code st1 ->
  extract_code_segment coq_code <> "" ->
  coqc W (coqcs st1) (filename self)
    (<[filename self := extract_code_segment coq_code]> (files st1))
  = (ExitZero, files') ->
  exists st',
    compile_and_check W self first errors st = Ok (true, None) st'
    /\ files st' = files'
    /\ chats st' = S (chats st) /\ coqcs st' = S (coqcs st).
Proof.
  intros Hgen Hne Hrun.
  pose proof (generate_coq_code_chats W self first errors st) as Hch.
  pose proof (generate_coq_code_frame W self first errors st) as (_ & Hc & _).
  rewrite Hgen in Hch, Hc. simpl in Hc.
  eexists. split; [exact (compile_and_check_accepted W self _ _ _ _ _ _ Hgen Hne Hrun) |].
  cbn. rewrite Hch, Hc. auto.
Qed.

Lemma accepted_attempt_witness :
  let self := init "prove 1=1" main_metaprompt "temp.v" default_model in
  let st := initial {[ "coq_error.log" := "an older diagnostic" ]} in
  let r := generate_coq_code accepting_world self true None st in
  r = Ok tagged_answer (final_state r)
  /\ extract_code_segment tagged_answer <> ""
  /\ exists st',
       compile_and_check accepting_world self true None st = Ok (true, None) st'
       /\ files st' = <["temp.v" := extract_code_segment tagged_answer]> (files st)
       /\ chats st' = 1 /\ coqcs st' = 1.
Proof.
  intros self st r.
  assert (H1 : r = Ok tagged_answer (final_state r)) by reflexivity.
  assert (H2 : extract_code_segment tagged_answer <> "")
    by (vm_compute; discriminate).
  split; [exact H1 |]. split; [exact H2 |].
  exact (accepted_attempt accepting_world self true None st tagged_answer
           (final_state r) _ H1 H2 eq_refl).
Defined.

Lemma universal_newlines_id (s : string) :
  Str.all (Str.other_than Str.cr) s = true -> Str.universal_newlines s = s.
Proof.
  induction s as [|c s IH]; [reflexivity |].
  cbn [Str.all Str.universal_newlines]. intros [Hc Hs]%andb_true_iff.
  unfold Str.other_than in Hc. apply negb_true_iff in Hc.
  now rewrite Hc, (IH Hs).
Qed.

(** X11: an attempt whose code the checker rejects returns failure with
    the text of the standard error as it is read back, in text mode, from
    the error log it has just written: every CR LF and lone CR of the text
    is a newline in the message, and a text without CR is the message as
    it is.  The log itself holds the text unchanged.  This holds also when
    the error log and the target file are given as the same path. *)
Theorem rejected_attempt_message W self first errors st coq_code st1 stderr files' :
  generate_coq_code W self first errors st = Ok coq_code st1 ->
  extract_code_segment coq_code <> "" ->
  coqc W (coqcs st1) (filename self)
    (<[filename self := extract_code_segment coq_code]> (files st1))
  = (ExitNonZero stderr, files') ->
  (exists st',
     compile_and_check W self first errors st
     = Ok (false, Some (Str.universal_newlines stderr)) st'
     /\ files st' !! error_log self = Some stderr
     /\ chats st' = S (chats st) /\ coqcs st' = S (coqcs st))
  /\ (Str.all (Str.other_than Str.cr) stderr = true ->
      Str.universal_newlines stderr = stderr).
Proof.
  intros Hgen Hne Hrun.
  pose proof (generate_coq_code_chats W self first errors st) as Hch.
  pose proof (generate_coq_code_frame W self first errors st) as (_ & Hc & _).
  rewrite Hgen in Hch, Hc. simpl in Hc.
  split; [| apply universal_newlines_id].
  eexists. split; [exact (compile_and_check_rejected W self _ _ _ _ _ _ _ Hgen Hne Hrun) |].
  cbn. rewrite lookup_insert_eq, Hch, Hc. auto.
Qed.

Lemma rejected_attempt_message_witness :
  let self := init "prove 1=1" main_metaprompt "temp.v" default_model in
  let r := generate_coq_code crlf_world self true None (initial ∅) in
  r = Ok tagged_answer (final_state r)
  /\ extract_code_segment tagged_answer <> ""
  /\ exists st',
       compile_and_check crlf_world self true None (initial ∅)
       = Ok (false, Some (syntax_error +:+ NL)) st'
       /\ files st' !! "coq_error.log" = Some syntax_error_crlf
       /\ chats st' = 1 /\ coqcs st' = 1.
Proof.
  intros self r.
  assert (H1 : r = Ok tagged_answer (final_state r)) by reflexivity.
  assert (H2 : extract_code_segment tagged_answer <> "")
    by (vm_compute; discriminate).
  split; [exact H1 |]. split; [exact H2 |].
  exact (proj1 (rejected_attempt_message crlf_world self true None (initial ∅)
                  tagged_answer (final_state r) syntax_error_crlf _ H1 H2 eq_refl)).
Defined.

(** X12: when the target file and the error log are given as the same
    path, an attempt whose code the checker rejects leaves the text of the
    standard error in that file: the code written there before the run of
    the checker is lost. *)
Theorem rejected_attempt_target W self first errors st coq_code st1 stderr files' :
  filename self = error_log self ->
  generate_coq_code W self first errors st = Ok coq_code st1 ->
  extract_code_segment coq_code <> "" ->
  coqc W (coqcs st1) (filename self)
    (<[filename self := extract_code_segment coq_code]> (files st1))
  = (ExitNonZero stderr, files') ->
  files (final_state (compile_and_check W self first errors st)) !! filename self
  = Some stderr.
Proof.
  intros Hd Hgen Hne Hrun.
  rewrite (compile_and_check_rejected W self _ _ _ _ _ _ _ Hgen Hne Hrun). cbn.
  rewrite Hd. apply lookup_insert_eq.
Qed.

Lemma rejected_attempt_target_witness :
  let self := init "prove 1=1" main_metaprompt "coq_error.log" default_model in
  let r := generate_coq_code rejecting_world self true None (initial ∅) in
  filename self = error_log self
  /\ r = Ok tagged_answer (final_state r)
  /\ extract_code_segment tagged_answer <> ""
  /\ files (final_state (compile_and_check rejecting_world self true None (initial ∅)))
       !! "coq_error.log"
     = Some "coqc: internal error".
Proof.
  intros self r.
  assert (H0 : filename self = error_log self) by reflexivity.
  assert (H1 : r = Ok tagged_answer (final_state r)) by reflexivity.
  assert (H2 : extract_code_segment tagged_answer <> "")
    by (vm_compute; discriminate).
  split; [exact H0 |]. split; [exact H1 |]. split; [exact H2 |].
  exact (rejected_attempt_target rejecting_world self true None (initial ∅)
           tagged_answer (final_state r) "coqc: internal error" _ H0 H1 H2 eq_refl).
Defined.

(** X13: a run of [n] rounds sends at most [n] requests to the model and
    never runs the checker more often than it has sent requests, however
    it ends; for [main] that is at most [MAX_NUM_ATTEMPTS] requests. *)
Theorem run_requests_and_checks W self n i status errors st :
  (let st' := final_state (main_loop W self n i status errors st) in
   chats st <= chats st' <= chats st + n
   /\ coqcs st <= coqcs st'
   /\ coqcs st' - coqcs st <= chats st' - chats st)
  /\ forall prompt model filename fs,
       let st' := final_state (main W prompt model filename (initial fs)) in
       coqcs st' <= chats st' <= MAX_NUM_ATTEMPTS.
Proof.
  split.
  - pose proof (main_loop_counters W self n i status errors st) as H.
    simpl in *. lia.
  - intros prompt model filename fs. unfold main.
    pose proof (main_loop_counters W (init prompt main_metaprompt filename model)
                  MAX_NUM_ATTEMPTS 0 false None (initial fs)) as H.
    simpl in *. lia.
Qed.

(** X14: when a round fails with a non-empty message in which the parser
    finds no diagnostic and a round of the budget is left, the run ends
    there with [KeyError] for the key [line]: the next round raises while
    it builds its prompt, before any request, run of the checker or write. *)
Theorem unparsed_failure_aborts W self n i status errors st e st1 :
  compile_and_check W self (i =? 0) errors (incr_attempts st) = Ok (false, Some e) st1 ->
  e <> "" -> parse_coq_error e = ∅ ->
  exists st',
    main_loop W self (S (S n)) i status errors st = Raise (KeyError "line") st'
    /\ chats st' = chats st1 /\ coqcs st' = coqcs st1 /\ files st' = files st1
    /\ attempts st' = attempts st + 2.
Proof.
  intros Hcc Hne Hp.
  pose proof (compile_and_check_attempts W self (i =? 0) errors (incr_attempts st)) as Ha.
  rewrite Hcc in Ha. simpl in Ha.
  eexists. split; [exact (main_loop_unparsed W self n _ _ _ _ _ _ Hcc Hne Hp) |].
  cbn. repeat split. lia.
Qed.

Lemma unparsed_failure_aborts_witness :
  let self := init "prove 1=1" main_metaprompt "temp.v" default_model in
  let r := compile_and_check rejecting_world self true None (incr_attempts (initial ∅)) in
  r = Ok (false, Some "coqc: internal error") (final_state r)
  /\ "coqc: internal error" <> ""
  /\ parse_coq_error "coqc: internal error" = ∅
  /\ exists st',
       main rejecting_world "prove 1=1" default_model "temp.v" (initial ∅)
       = Raise (KeyError "line") st'
       /\ chats st' = 1 /\ coqcs st' = 1.
Proof.
  intros self r.
  assert (H1 : r = Ok (false, Some "coqc: internal error") (final_state r))
    by (vm_compute; reflexivity).
  assert (H2 : "coqc: internal error" <> "") by discriminate.
  assert (H3 : parse_coq_error "coqc: internal error" = ∅) by (vm_compute; reflexivity).
  split; [exact H1 |]. split; [exact H2 |]. split; [exact H3 |].
  destruct (unparsed_failure_aborts rejecting_world self 0 0 false None (initial ∅)
              _ _ H1 H2 H3) as (st' & Hm & Hc & Hq & _).
  exists st'. split; [exact Hm |]. rewrite Hc, Hq. split; vm_compute; reflexivity.
Defined.

(** X15: an answer without a code segment in any round but the last of
    the budget ends the run with [KeyError] for the key [line]: the
    message of the failed extraction is no diagnostic.  No further
    request is sent, the checker is not run and no file is written. *)
Theorem missing_code_aborts W self n i status errors st coq_code st1 :
  generate_coq_code W self (i =? 0) errors (incr_attempts st) = Ok coq_code st1 ->
  extract_code_segment coq_code = "" ->
  exists st',
    main_loop W self (S (S n)) i status errors st = Raise (KeyError "line") st'
    /\ chats st' = S (chats st) /\ coqcs st' = coqcs st /\ files st' = files st.
Proof.
  intros Hgen Hex.
  destruct (compile_and_check_no_code W self _ _ _ _ _ Hgen Hex) as [Hcc (Hf & Hc & _)].
  pose proof (generate_coq_code_chats W self (i =? 0) errors (incr_attempts st)) as Hch.
  rewrite Hgen in Hch.
  assert (Hp : parse_coq_error no_code_message = ∅) by (vm_compute; reflexivity).
  assert (Hne : no_code_message <> "") by discriminate.
  eexists. split; [exact (main_loop_unparsed W self n _ _ _ _ _ _ Hcc Hne Hp) |].
  cbn in *. auto.
Qed.

Lemma missing_code_aborts_witness :
  let self := init "prove 1=1" main_metaprompt "temp.v" default_model in
  let r := generate_coq_code mute_world self true None (incr_attempts (initial ∅)) in
  r = Ok "I cannot write this proof." (final_state r)
  /\ extract_code_segment "I cannot write this proof." = ""
  /\ exists st',
       main mute_world "prove 1=1" default_model "temp.v" (initial ∅)
       = Raise (KeyError "line") st'
       /\ chats st' = 1 /\ coqcs st' = 0 /\ files st' = ∅.
Proof.
  intros self r.
  assert (H1 : r = Ok "I cannot write this proof." (final_state r)) by reflexivity.
  assert (H2 : extract_code_segment "I cannot write this proof." = "")
    by (vm_compute; reflexivity).
  split; [exact H1 |]. split; [exact H2 |].
  exact (missing_code_aborts mute_world self 0 0 false None (initial ∅) _ _ H1 H2).
Defined.

Section RunFacts.

Variable W : World.
Variable self : CoqInterface.

(** What an attempt that returns has done. *)
Lemma compile_and_check_inv first errors st r st' :
  compile_and_check W self first errors st = Ok r st' ->
  exists coq_code st1,
    generate_coq_code W self first errors st = Ok coq_code st1
    /\ ((extract_code_segment coq_code = ""
         /\ r = (false, Some no_code_message) /\ files st' = files st1)
        \/ (extract_code_segment coq_code <> ""
            /\ exists status files',
                 coqc W (coqcs st1) (filename self)
                   (<[filename self := extract_code_segment coq_code]> (files st1))
                 = (status, files')
                 /\ match status with
                    | ExitZero => r = (true, None) /\ files st' = files'
                    | ExitNonZero stderr =>
                        r = (false, Some (Str.universal_newlines stderr))
                        /\ files st' = <[error_log self := stderr]> files'
                    end)).
Proof.
  unfold compile_and_check, bind.
  destruct (generate_coq_code W self first errors st) as [code st1|e st1];
    [| discriminate].
  intros H. exists code, st1. split; [reflexivity |].
  destruct (String.eqb_spec (extract_code_segment code) "") as [Hex|Hne].
  - left. injection H as <- <-. auto.
  - right. split; [exact Hne |]. revert H.
    unfold write_to_file, write_file, run_coqc, subprocess_run, bind, ret, print.
    cbn [files coqcs set_files].
    destruct (coqc W _ _ _) as [[|stderr] fs']; cbn.
    + intros H. injection H as <- <-. exists ExitZero, fs'. auto.
    + unfold parse_errors. cbn. rewrite lookup_insert_eq. cbn.
      intros H. injection H as <- <-. exists (ExitNonZero stderr), fs'. auto.
Qed.

Lemma generate_coq_code_answer first errors st coq_code st1 :
  generate_coq_code W self first errors st = Ok coq_code st1 ->
  exists request prompt, coq_code = ollama_chat W request (model self) prompt.
Proof.
  unfold generate_coq_code, bind, print, chat.
  destruct (construct_ollama_prompt self first errors st) as [prompt st0|];
    [| discriminate].
  intros H. injection H as <- _. eauto.
Qed.

End RunFacts.

(** X17: a run reports success only for code the checker accepted: when
    the loop ends with status true, its message is [None] and the files
    it leaves are those left by a run of the checker that exited with
    status zero on the target file holding a non-empty code segment of
    the model's answer. *)
Theorem success_is_checked W self n i errors st e st' :
  main_loop W self n i false errors st = Ok (true, e) st' ->
  e = None
  /\ exists k fs request prompt,
       let answer := ollama_chat W request (model self) prompt in
       extract_code_segment answer <> ""
       /\ coqc W k (filename self) (<[filename self := extract_code_segment answer]> fs)
          = (ExitZero, files st').
Proof.
  revert i errors st. induction n as [|n IH]; intros i errors st H;
    [discriminate H |].
  destruct (compile_and_check W self (i =? 0) errors (incr_attempts st))
    as [[[|] e1] st1|e1 st1] eqn:E.
  - rewrite (main_loop_succeeded _ _ _ _ _ _ _ _ _ E) in H. injection H as <- <-.
    apply compile_and_check_inv in E
      as (code & st2 & Hgen & [(_ & Hr & _) | (Hne & status & fs' & Hrun & Hst)]);
      [discriminate Hr |].
    destruct status as [|stderr]; destruct Hst as [Hr Hf]; [| discriminate Hr].
    injection Hr as <-. split; [reflexivity |].
    apply generate_coq_code_answer in Hgen as (request & prompt & ->).
    exists (coqcs st2), (files st2), request, prompt. rewrite Hf. auto.
  - rewrite (main_loop_failed _ _ _ _ _ _ _ _ _ E) in H. eauto.
  - rewrite (main_loop_raised _ _ _ _ _ _ _ _ _ E) in H. discriminate H.
Qed.

Lemma success_is_checked_witness :
  let self := init "prove 1=1" main_metaprompt "temp.v" default_model in
  let r := main_loop retry_world self 2 0 false None (initial ∅) in
  r = Ok (true, None) (final_state r)
  /\ exists k fs request prompt,
       let answer := ollama_chat retry_world request default_model prompt in
       extract_code_segment answer <> ""
       /\ coqc retry_world k "temp.v" (<["temp.v" := extract_code_segment answer]> fs)
          = (ExitZero, files (final_state r)).
Proof.
  intros self r.
  assert (H : r = Ok (true, None) (final_state r)) by (vm_compute; reflexivity).
  split; [exact H |].
  exact (proj2 (success_is_checked retry_world self 2 0 None (initial ∅) None
                  (final_state r) H)).
Defined.

(** X18: a run that ends without success after at least one round
    carries the message of its last round: the message of a missing code
    segment, or what a reading in text mode makes of the text the error
    log holds when the run ends. *)
Theorem failure_message W self n i status errors st e st' :
  main_loop W self (S n) i status errors st = Ok (false, e) st' ->
  e = Some no_code_message
  \/ exists content,
       files st' !! error_log self = Some content
       /\ e = Some (Str.universal_newlines content).
Proof.
  revert i status errors st. induction n as [|n IH]; intros i status errors st H;
    destruct (compile_and_check W self (i =? 0) errors (incr_attempts st))
      as [[[|] e1] st1|e1 st1] eqn:E;
    try (rewrite (main_loop_succeeded _ _ _ _ _ _ _ _ _ E) in H; discriminate H);
    try (rewrite (main_loop_raised _ _ _ _ _ _ _ _ _ E) in H; discriminate H);
    rewrite (main_loop_failed _ _ _ _ _ _ _ _ _ E) in H; [| eauto].
  injection H as <- <-.
  apply compile_and_check_inv in E
    as (code & st2 & _ & [(_ & Hr & _) | (_ & status' & fs' & _ & Hst)]).
  - injection Hr as ->. now left.
  - destruct status' as [|stderr]; destruct Hst as [Hr Hf]; [discriminate Hr |].
    injection Hr as ->. right. exists stderr. split; [| reflexivity].
    cbn. rewrite Hf. apply lookup_insert_eq.
Qed.

Lemma failure_message_witness :
  let self := init "prove 1=1" main_metaprompt "temp.v" default_model in
  let r := main_loop crlf_world self 1 0 false None (initial ∅) in
  let e := Some (syntax_error +:+ NL) in
  r = Ok (false, e) (final_state r)
  /\ (e = Some no_code_message
      \/ exists content,
           files (final_state r) !! "coq_error.log" = Some content
           /\ e = Some (Str.universal_newlines content)).
Proof.
  intros self r e.
  assert (H : r = Ok (false, e) (final_state r)) by (vm_compute; reflexivity).
  split; [exact H |].
  exact (failure_message crlf_world self 0 0 false None (initial ∅) e
           (final_state r) H).
Defined.
